(** * The TOON encoder of [rag_techniques/utils.py] and its callers

    A shallow embedding of the JSON-to-TOON encoder
    ([json_to_toon], [convert_json_to_toon] and their helpers) together
    with the parts of the Python runtime they call: [str] values and their
    methods, [int] and [float] printing, and the [json] module
    ([json.loads], [json.dumps]); then the loops of [rag.py], [app.py]
    and the scripts that make documents, write and read [doc_map.json]
    and put the context of a query together. *)

From Stdlib Require Import List ZArith NArith Bool Lia String Ascii.
From Stdlib Require Import DecimalString SpecFloat.
From Stdlib Require DecimalFacts DecimalPos.
Import ListNotations.

Local Open Scope Z_scope.

(** ** Python [str]

    A Python string is a sequence of Unicode code points.  A code point is
    an [N]; literals of the source are written with [lit] from a Rocq
    string whose bytes are read as the code points 0..255. *)

Module PyStr.

Definition char := N.
Definition str := list char.

Definition lit (s : string) : str := List.map N_of_ascii (list_ascii_of_string s).

Definition LF : char := 10%N.
Definition CR : char := 13%N.
Definition TAB : char := 9%N.
Definition SPACE : char := 32%N.
Definition DQUOTE : char := 34%N.
Definition BACKSLASH : char := 92%N.
Definition COMMA : char := 44%N.

Fixpoint str_eqb (a b : str) : bool :=
  match a, b with
  | [], [] => true
  | x :: a', y :: b' => N.eqb x y && str_eqb a' b'
  | _, _ => false
  end.

(** [sep.join(parts)] *)
Fixpoint join (sep : str) (parts : list str) : str :=
  match parts with
  | [] => []
  | [p] => p
  | p :: rest => p ++ sep ++ join sep rest
  end.

(** [" " * n]: the empty string when [n <= 0]. *)
Definition spaces (n : Z) : str := List.repeat SPACE (Z.to_nat n).

(** [s.startswith(p)] *)
Fixpoint startswith (p s : str) : bool :=
  match p, s with
  | [], _ => true
  | x :: p', y :: s' => N.eqb x y && startswith p' s'
  | _ :: _, [] => false
  end.

(** [c in s] for a one-character [c]. *)
Definition contains (c : char) (s : str) : bool := List.existsb (N.eqb c) s.

(** [s.replace(old, new)] for a non-empty [old]: the occurrences of [old]
    are found from left to right and do not overlap.  [skip] counts the
    characters of a match that are still to be dropped. *)
Fixpoint replace_from (old new s : str) (skip : nat) : str :=
  match s with
  | [] => []
  | c :: s' =>
      match skip with
      | S k => replace_from old new s' k
      | O =>
          if startswith old s
          then new ++ replace_from old new s' (Nat.pred (List.length old))
          else c :: replace_from old new s' O
      end
  end.

(** [s.replace(old, new)]; with an empty [old], [new] is inserted before
    every character and at the end. *)
Definition replace (old new s : str) : str :=
  match old with
  | [] => new ++ List.flat_map (fun c => c :: new) s
  | _ :: _ => replace_from old new s O
  end.

(** [c.isspace()]: the code points Unicode classifies as whitespace
    (bidirectional type WS, B or S, or category Zs). *)
Definition isspace (c : char) : bool :=
  ((9 <=? c) && (c <=? 13) || (28 <=? c) && (c <=? 32)
   || (c =? 133) || (c =? 160) || (c =? 5760)
   || (8192 <=? c) && (c <=? 8202)
   || (c =? 8232) || (c =? 8233) || (c =? 8239) || (c =? 8287)
   || (c =? 12288))%N.

(** [str(n)] for an [int]: decimal digits, with a leading [-] when negative. *)
Definition str_of_int (n : Z) : str := lit (NilZero.string_of_int (Z.to_int n)).

End PyStr.
Import PyStr.

(** ** Python [float]

    A Python float is an IEEE 754 binary64 number, here a [spec_float] in
    canonical form: [S754_finite s m e] is [(-1)^s * m * 2^e] with
    [m < 2^53] and [-1074 <= e <= 971].  [float(text)] rounds the decimal
    it reads to the nearest float, ties to even; [repr] prints the shortest
    decimal that reads back as the same float. *)

Module PyFloat.

Definition pyfloat := spec_float.

Definition float_eqb (x y : pyfloat) : bool :=
  match x, y with
  | S754_zero a, S754_zero b => Bool.eqb a b
  | S754_infinity a, S754_infinity b => Bool.eqb a b
  | S754_nan, S754_nan => true
  | S754_finite a m e, S754_finite b m' e' => Bool.eqb a b && Pos.eqb m m' && Z.eqb e e'
  | _, _ => false
  end.

(** [n / (d * 2^e)] as a pair of integers. *)
Definition scale2 (n d e : Z) : Z * Z :=
  if 0 <=? e then (n, d * 2 ^ e) else (n * 2 ^ (- e), d).

(** [n / (d * 10^t)] as a pair of integers. *)
Definition scale10 (n d t : Z) : Z * Z :=
  if 0 <=? t then (n, d * 10 ^ t) else (n * 10 ^ (- t), d).

(** The binary64 nearest to the positive rational [n / d], ties to even,
    with gradual underflow and overflow to infinity. *)
Definition round_ratio (neg : bool) (n d : Z) : pyfloat :=
  let e0 := Z.log2 n - Z.log2 d - 53 in
  let e1 := let '(a, b) := scale2 n d e0 in
            if 2 ^ 53 <=? a / b then e0 + 1 else e0 in
  let e := Z.max e1 (-1074) in
  let '(a, b) := scale2 n d e in
  let q := a / b in
  let r := a mod b in
  let q' := if (b <? 2 * r) || ((b =? 2 * r) && Z.odd q) then q + 1 else q in
  let '(m, e') := if q' =? 2 ^ 53 then (2 ^ 52, e + 1) else (q', e) in
  if m =? 0 then S754_zero neg
  else if 971 <? e' then S754_infinity neg
  else S754_finite neg (Z.to_pos m) e'.

(** [float] of the decimal [(-1)^neg * m * 10^e]. *)
Definition float_of_decimal (neg : bool) (m e : Z) : pyfloat :=
  if m =? 0 then S754_zero neg
  else let '(n, d) := scale10 m 1 (- e) in round_ratio neg n d.

(** The [p] with [10^(p-1) <= n/d < 10^p], found next to an estimate from
    the binary logarithm. *)
Definition decimal_point (n d : Z) : Z :=
  let est := (Z.log2 n - Z.log2 d) * 30103 / 100000 in
  let ok p := let '(a, b) := scale10 n d (p - 1) in (b <=? a) && (a <? 10 * b) in
  if ok est then est
  else if ok (est + 1) then est + 1
  else if ok (est + 2) then est + 2
  else est - 1.

(** The decimals [c * 10^t] with [k] significant digits next to [n / d],
    the nearer one first. *)
Definition neighbours (n d p : Z) (k : Z) : list (Z * Z) :=
  let t := p - k in
  let '(a, b) := scale10 n d t in
  let lo := a / b in
  let r := a mod b in
  if r =? 0 then [(lo, t)]
  else if (2 * r <? b) || ((2 * r =? b) && Z.even lo)
       then [(lo, t); (lo + 1, t)]
       else [(lo + 1, t); (lo, t)].

(** The shortest decimal that reads back as [x = m * 2^e]: digit counts
    [k, k+1, ...] are tried in turn; 17 digits always suffice. *)
Fixpoint shortest (fuel : nat) (k : Z) (x : pyfloat) (n d p : Z) : Z * Z :=
  let cands := neighbours n d p k in
  match List.find (fun '(c, t) => float_eqb (float_of_decimal false c t) x) cands with
  | Some ct => ct
  | None =>
      match fuel with
      | O => List.hd (0, 0) cands
      | S fuel' => shortest fuel' (k + 1) x n d p
      end
  end.

Fixpoint strip_zeros (rev_digits : str) : str :=
  match rev_digits with
  | c :: r => if N.eqb c 48 then strip_zeros r else rev_digits
  | [] => []
  end.

(** The digits of [repr] and the position of the decimal point before,
    inside or after them. *)
Definition digits_of (m : positive) (e : Z) : str * Z :=
  let '(n, d) := scale2 (Zpos m) 1 (- e) in
  let p := decimal_point n d in
  let '(c, t) := shortest 16 1 (S754_finite false m e) n d p in
  let ds := str_of_int c in
  (List.rev (strip_zeros (List.rev ds)), t + Z.of_nat (List.length ds)).

(** The exponent of the scientific notation: a sign and two digits at least. *)
Definition exponent_text (x : Z) : str :=
  (if x <? 0 then lit "-" else lit "+")
  ++ (if Z.abs x <? 10 then lit "0" else []) ++ str_of_int (Z.abs x).

(** [repr] of a positive finite float, from its digits. *)
Definition format_repr (ds : str) (decpt : Z) : str :=
  if (decpt <=? -4) || (16 <? decpt) then
    match ds with
    | [] => lit "0e+00"
    | [c] => c :: lit "e" ++ exponent_text (decpt - 1)
    | c :: rest => c :: lit "." ++ rest ++ lit "e" ++ exponent_text (decpt - 1)
    end
  else if decpt <=? 0 then
    lit "0." ++ List.repeat 48%N (Z.to_nat (- decpt)) ++ ds
  else if Z.of_nat (List.length ds) <=? decpt then
    ds ++ List.repeat 48%N (Z.to_nat decpt - List.length ds) ++ lit ".0"
  else
    List.firstn (Z.to_nat decpt) ds ++ lit "." ++ List.skipn (Z.to_nat decpt) ds.

Definition sign_text (neg : bool) : str := if neg then lit "-" else [].

(** [repr(x)], which is also [str(x)]. *)
Definition float_repr (x : pyfloat) : str :=
  match x with
  | S754_nan => lit "nan"
  | S754_infinity neg => sign_text neg ++ lit "inf"
  | S754_zero neg => sign_text neg ++ lit "0.0"
  | S754_finite neg m e =>
      let '(ds, decpt) := digits_of m e in sign_text neg ++ format_repr ds decpt
  end.

End PyFloat.
Import PyFloat.

(** ** Values

    What [json.loads] returns and what the encoder takes: [None], [bool],
    [int], [float], [str], [list] and [dict].  A [dict] keeps its keys in
    insertion order, so it is the list of its items. *)

Unset Elimination Schemes.
Inductive value : Type :=
| VNone
| VBool (b : bool)
| VInt (n : Z)
| VFloat (f : pyfloat)
| VStr (s : str)
| VList (elems : list value)
| VDict (items : list (str * value)).
Set Elimination Schemes.

(** Induction over a value, its elements and the values of its items. *)
Fixpoint value_ind (P : value -> Prop)
    (HNone : P VNone) (HBool : forall b, P (VBool b))
    (HInt : forall n, P (VInt n)) (HFloat : forall f, P (VFloat f))
    (HStr : forall s, P (VStr s))
    (HList : forall elems, Forall P elems -> P (VList elems))
    (HDict : forall items, Forall (fun kv => P (snd kv)) items -> P (VDict items))
    (v : value) {struct v} : P v :=
  let rec := value_ind P HNone HBool HInt HFloat HStr HList HDict in
  match v with
  | VNone => HNone
  | VBool b => HBool b
  | VInt n => HInt n
  | VFloat f => HFloat f
  | VStr s => HStr s
  | VList elems =>
      HList elems
        ((fix go (l : list value) : Forall P l :=
            match l with
            | [] => Forall_nil P
            | x :: l' => Forall_cons x (rec x) (go l')
            end) elems)
  | VDict items =>
      HDict items
        ((fix go (l : list (str * value)) : Forall (fun kv => P (snd kv)) l :=
            match l with
            | [] => Forall_nil _
            | kv :: l' => Forall_cons kv (rec (snd kv)) (go l')
            end) items)
  end.

(** Exceptions the modelled code can raise. *)
Inductive exn : Type :=
| JSONDecodeError
| KeyError
| AttributeError
| TypeError.

Inductive result (A : Type) : Type :=
| Ok (a : A)
| Raise (e : exn).
Arguments Ok {A} a.
Arguments Raise {A} e.

Definition bind {A B : Type} (c : result A) (k : A -> result B) : result B :=
  match c with
  | Ok a => k a
  | Raise e => Raise e
  end.

Notation "x <- c ;; k" := (bind c (fun x => k))
  (at level 61, c at next level, right associativity).

(** A comprehension or a [for] loop over [l] whose body may raise: the
    first exception ends it. *)
Fixpoint mapM {A B : Type} (f : A -> result B) (l : list A) : result (list B) :=
  match l with
  | [] => Ok []
  | a :: l' => b <- f a ;; bs <- mapM f l' ;; Ok (b :: bs)
  end.

Definition is_dict (v : value) : bool :=
  match v with VDict _ => true | _ => false end.

(** [list(el.keys())] *)
Definition keys (el : value) : result (list str) :=
  match el with
  | VDict items => Ok (List.map fst items)
  | _ => Raise AttributeError
  end.

Fixpoint lookup (c : str) (items : list (str * value)) : option value :=
  match items with
  | [] => None
  | (k, v) :: rest => if str_eqb k c then Some v else lookup c rest
  end.

(** [item[c]] for a string [c]. *)
Definition getitem (item : value) (c : str) : result value :=
  match item with
  | VDict items =>
      match lookup c items with
      | Some v => Ok v
      | None => Raise KeyError
      end
  | _ => Raise TypeError
  end.

(** [d[k] = v]: a key already present keeps its place. *)
Fixpoint setitem (items : list (str * value)) (k : str) (v : value) : list (str * value) :=
  match items with
  | [] => [(k, v)]
  | (k', v') :: rest =>
      if str_eqb k' k then (k', v) :: rest else (k', v') :: setitem rest k v
  end.

Fixpoint list_eqb (a b : list str) : bool :=
  match a, b with
  | [], [] => true
  | x :: a', y :: b' => str_eqb x y && list_eqb a' b'
  | _, _ => false
  end.

(** [len(lst)] printed in an f-string. *)
Definition len_text {A : Type} (lst : list A) : str :=
  str_of_int (Z.of_nat (List.length lst)).

(** ** The [json] module

    The two functions of Python's standard [json] module that the
    encoder calls, after CPython's encoder and scanner:
    [json.dumps(v, separators=...)] with the default [ensure_ascii], and
    [json.loads(s)] with the default decoder. *)

Module Json.

Definition hex_digit (d : N) : char :=
  (if d <? 10 then 48 + d else 87 + d)%N.

(** [\uXXXX] with four lower-case hexadecimal digits. *)
Definition escape_u (c : N) : str :=
  lit "\u" ++ [hex_digit (c / 4096 mod 16); hex_digit (c / 256 mod 16);
               hex_digit (c / 16 mod 16); hex_digit (c mod 16)]%N.

(** One character of a string literal under [ensure_ascii]. *)
Definition escape_char (c : char) : str :=
  if N.eqb c DQUOTE then lit "\" ++ [DQUOTE]
  else if N.eqb c BACKSLASH then lit "\\"
  else if N.eqb c LF then lit "\n"
  else if N.eqb c CR then lit "\r"
  else if N.eqb c TAB then lit "\t"
  else if N.eqb c 8 then lit "\b"
  else if N.eqb c 12 then lit "\f"
  else if ((32 <=? c) && (c <=? 126))%N then [c]
  else if (c <? 65536)%N then escape_u c
  else let v := (c - 65536)%N in
       escape_u (55296 + v / 1024 mod 1024)%N ++ escape_u (56320 + v mod 1024)%N.

Definition encode_string (s : str) : str :=
  [DQUOTE] ++ List.flat_map escape_char s ++ [DQUOTE].

(** A float as [json.dumps] prints it: [repr], but for the three special
    values. *)
Definition encode_float (f : pyfloat) : str :=
  match f with
  | S754_nan => lit "NaN"
  | S754_infinity false => lit "Infinity"
  | S754_infinity true => lit "-Infinity"
  | _ => float_repr f
  end.

(** [json.dumps(v, separators=(item_sep, key_sep))] *)
Fixpoint dumps (item_sep key_sep : str) (v : value) {struct v} : str :=
  match v with
  | VNone => lit "null"
  | VBool true => lit "true"
  | VBool false => lit "false"
  | VInt n => str_of_int n
  | VFloat f => encode_float f
  | VStr s => encode_string s
  | VList elems =>
      lit "[" ++ join item_sep (List.map (dumps item_sep key_sep) elems) ++ lit "]"
  | VDict items =>
      lit "{"
      ++ join item_sep
           (List.map (fun kv => encode_string (fst kv) ++ key_sep
                                ++ dumps item_sep key_sep (snd kv)) items)
      ++ lit "}"
  end.

(** *** Decoding *)

Definition is_ws (c : char) : bool :=
  N.eqb c SPACE || N.eqb c TAB || N.eqb c LF || N.eqb c CR.

Fixpoint skip_ws (s : str) : str :=
  match s with
  | c :: s' => if is_ws c then skip_ws s' else s
  | [] => []
  end.

Definition isdigit (c : char) : bool := ((48 <=? c) && (c <=? 57))%N.

Definition hex_value (c : char) : option N :=
  (if (48 <=? c) && (c <=? 57) then Some (c - 48)
   else if (97 <=? c) && (c <=? 102) then Some (c - 87)
   else if (65 <=? c) && (c <=? 70) then Some (c - 55)
   else None)%N.

Definition hex4 (a b c d : char) : option N :=
  match hex_value a, hex_value b, hex_value c, hex_value d with
  | Some x, Some y, Some z, Some w => Some (((x * 16 + y) * 16 + z) * 16 + w)%N
  | _, _, _, _ => None
  end.

Definition is_high_surrogate (c : N) : bool := ((55296 <=? c) && (c <=? 56319))%N.
Definition is_low_surrogate (c : N) : bool := ((56320 <=? c) && (c <=? 57343))%N.
Definition join_surrogates (hi lo : N) : N :=
  (65536 + (hi - 55296) * 1024 + (lo - 56320))%N.

(** The character a one-letter escape stands for. *)
Definition simple_escape (c : char) : option char :=
  if N.eqb c DQUOTE then Some DQUOTE
  else if N.eqb c BACKSLASH then Some BACKSLASH
  else if N.eqb c 47 then Some 47%N
  else if N.eqb c 98 then Some 8%N
  else if N.eqb c 102 then Some 12%N
  else if N.eqb c 110 then Some LF
  else if N.eqb c 114 then Some CR
  else if N.eqb c 116 then Some TAB
  else None.

(** The string literal whose opening quote has been read: its content and
    the text after its closing quote.  Control characters are refused
    (strict mode); a high surrogate escape directly followed by a low one
    is one character. *)
Fixpoint scanstring (s : str) (acc : str) {struct s} : result (str * str) :=
  match s with
  | [] => Raise JSONDecodeError
  | c :: s1 =>
      if N.eqb c DQUOTE then Ok (acc, s1)
      else if N.eqb c BACKSLASH then
        match s1 with
        | [] => Raise JSONDecodeError
        | e :: s2 =>
            if N.eqb e 117 then
              match s2 with
              | h1 :: h2 :: h3 :: h4 :: s3 =>
                  match hex4 h1 h2 h3 h4 with
                  | None => Raise JSONDecodeError
                  | Some u =>
                      match s3 with
                      | b :: e' :: g1 :: g2 :: g3 :: g4 :: s4 =>
                          if is_high_surrogate u && N.eqb b BACKSLASH && N.eqb e' 117 then
                            match hex4 g1 g2 g3 g4 with
                            | None => Raise JSONDecodeError
                            | Some u2 =>
                                if is_low_surrogate u2
                                then scanstring s4 (acc ++ [join_surrogates u u2])
                                else scanstring s3 (acc ++ [u])
                            end
                          else scanstring s3 (acc ++ [u])
                      | _ => scanstring s3 (acc ++ [u])
                      end
                  end
              | _ => Raise JSONDecodeError
              end
            else
              match simple_escape e with
              | Some x => scanstring s2 (acc ++ [x])
              | None => Raise JSONDecodeError
              end
        end
      else if (c <=? 31)%N then Raise JSONDecodeError
      else scanstring s1 (acc ++ [c])
  end.

Fixpoint span_digits (s : str) : str * str :=
  match s with
  | c :: s' =>
      if isdigit c then let '(ds, rest) := span_digits s' in (c :: ds, rest)
      else ([], s)
  | [] => ([], [])
  end.

Definition int_of_digits (ds : str) : Z :=
  List.fold_left (fun a c => 10 * a + (Z.of_N c - 48)) ds 0.

(** The integer part of a number: [0], or digits that do not start with [0]. *)
Definition match_integer (s : str) : option (str * str) :=
  match s with
  | c :: s' =>
      if N.eqb c 48 then Some ([c], s')
      else if isdigit c then let '(ds, rest) := span_digits s' in Some (c :: ds, rest)
      else None
  | [] => None
  end.

(** A fraction: a point and one digit at least. *)
Definition match_fraction (s : str) : option (str * str) :=
  match s with
  | p :: d :: _ =>
      if N.eqb p 46 && isdigit d
      then let '(ds, rest) := span_digits (List.tl s) in Some (ds, rest)
      else None
  | _ => None
  end.

(** An exponent: [e] or [E], an optional sign and one digit at least. *)
Definition match_exponent (s : str) : option (Z * str) :=
  match s with
  | e :: s1 =>
      if N.eqb e 101 || N.eqb e 69 then
        let '(neg, s2) :=
          match s1 with
          | c :: r => if N.eqb c 45 then (true, r)
                      else if N.eqb c 43 then (false, r) else (false, s1)
          | [] => (false, s1)
          end in
        match span_digits s2 with
        | ([], _) => None
        | (ds, rest) =>
            Some ((if neg then - int_of_digits ds else int_of_digits ds), rest)
        end
      else None
  | [] => None
  end.

(** The longest number at the start of [s]: an [int] when it has neither
    fraction nor exponent, a [float] otherwise. *)
Definition match_number (s : str) : option (value * str) :=
  let '(neg, s1) :=
    match s with
    | c :: r => if N.eqb c 45 then (true, r) else (false, s)
    | [] => (false, s)
    end in
  match match_integer s1 with
  | None => None
  | Some (ip, s2) =>
      let '(frac, s3) :=
        match match_fraction s2 with
        | Some (ds, rest) => (Some ds, rest)
        | None => (None, s2)
        end in
      let '(ex, s4) :=
        match match_exponent s3 with
        | Some (x, rest) => (Some x, rest)
        | None => (None, s3)
        end in
      match frac, ex with
      | None, None =>
          Some (VInt (if neg then - int_of_digits ip else int_of_digits ip), s4)
      | _, _ =>
          let fd := match frac with Some ds => ds | None => [] end in
          let x := match ex with Some x => x | None => 0 end in
          Some (VFloat (float_of_decimal neg (int_of_digits (ip ++ fd))
                          (x - Z.of_nat (List.length fd))), s4)
      end
  end.

(** The outcome of a scan: [None] when the recursion budget is used up. *)
Definition scan (A : Type) : Type := option (result A).

(** The elements of an array after the first character of an element,
    up to the closing bracket. *)
Fixpoint parse_array_loop (scan_once : str -> scan (value * str))
    (budget : nat) (s : str) (acc : list value) : scan (value * str) :=
  match budget with
  | O => None
  | S budget' =>
      match scan_once s with
      | None => None
      | Some (Raise e) => Some (Raise e)
      | Some (Ok (v, rest)) =>
          match skip_ws rest with
          | c :: rest' =>
              if N.eqb c 93 then Some (Ok (VList (acc ++ [v]), rest'))
              else if N.eqb c COMMA
                   then parse_array_loop scan_once budget' (skip_ws rest') (acc ++ [v])
                   else Some (Raise JSONDecodeError)
          | [] => Some (Raise JSONDecodeError)
          end
      end
  end.

(** The array whose opening bracket has been read. *)
Definition parse_array (scan_once : str -> scan (value * str))
    (budget : nat) (s : str) : scan (value * str) :=
  match skip_ws s with
  | c :: rest =>
      if N.eqb c 93 then Some (Ok (VList [], rest))
      else parse_array_loop scan_once budget (c :: rest) []
  | [] => Some (Raise JSONDecodeError)
  end.

(** The items of an object from the quote of a key up to the closing brace. *)
Fixpoint parse_object_loop (scan_once : str -> scan (value * str))
    (budget : nat) (s : str) (acc : list (str * value)) : scan (value * str) :=
  match budget with
  | O => None
  | S budget' =>
      match s with
      | q :: s1 =>
          if N.eqb q DQUOTE then
            match scanstring s1 [] with
            | Raise e => Some (Raise e)
            | Ok (key, s2) =>
                match skip_ws s2 with
                | c :: s3 =>
                    if N.eqb c 58 then
                      match scan_once (skip_ws s3) with
                      | None => None
                      | Some (Raise e) => Some (Raise e)
                      | Some (Ok (v, s4)) =>
                          match skip_ws s4 with
                          | d :: s5 =>
                              if N.eqb d 125
                              then Some (Ok (VDict (setitem acc key v), s5))
                              else if N.eqb d COMMA
                                   then parse_object_loop scan_once budget'
                                          (skip_ws s5) (setitem acc key v)
                                   else Some (Raise JSONDecodeError)
                          | [] => Some (Raise JSONDecodeError)
                          end
                      end
                    else Some (Raise JSONDecodeError)
                | [] => Some (Raise JSONDecodeError)
                end
            end
          else Some (Raise JSONDecodeError)
      | [] => Some (Raise JSONDecodeError)
      end
  end.

(** The object whose opening brace has been read. *)
Definition parse_object (scan_once : str -> scan (value * str))
    (budget : nat) (s : str) : scan (value * str) :=
  match skip_ws s with
  | c :: rest =>
      if N.eqb c 125 then Some (Ok (VDict [], rest))
      else parse_object_loop scan_once budget (c :: rest) []
  | [] => Some (Raise JSONDecodeError)
  end.

(** The JSON term at the start of [s] and the text after it. *)
Fixpoint scan_once (budget : nat) (s : str) {struct budget} : scan (value * str) :=
  match budget with
  | O => None
  | S budget' =>
      match s with
      | [] => Some (Raise JSONDecodeError)
      | c :: s' =>
          if N.eqb c DQUOTE then
            match scanstring s' [] with
            | Ok (x, rest) => Some (Ok (VStr x, rest))
            | Raise e => Some (Raise e)
            end
          else if N.eqb c 123 then parse_object (scan_once budget') budget' s'
          else if N.eqb c 91 then parse_array (scan_once budget') budget' s'
          else if startswith (lit "null") s then Some (Ok (VNone, List.skipn 4 s))
          else if startswith (lit "true") s then Some (Ok (VBool true, List.skipn 4 s))
          else if startswith (lit "false") s then Some (Ok (VBool false, List.skipn 5 s))
          else if startswith (lit "NaN") s then Some (Ok (VFloat S754_nan, List.skipn 3 s))
          else if startswith (lit "Infinity") s
               then Some (Ok (VFloat (S754_infinity false), List.skipn 8 s))
          else if startswith (lit "-Infinity") s
               then Some (Ok (VFloat (S754_infinity true), List.skipn 9 s))
          else match match_number s with
               | Some r => Some (Ok r)
               | None => Some (Raise JSONDecodeError)
               end
      end
  end.

(** [JSONDecoder.decode]: one term between optional whitespace, and
    nothing after it. *)
Definition decode (s : str) : scan value :=
  match scan_once (S (List.length s)) (skip_ws s) with
  | None => None
  | Some (Raise e) => Some (Raise e)
  | Some (Ok (v, rest)) =>
      match skip_ws rest with
      | [] => Some (Ok v)
      | _ :: _ => Some (Raise JSONDecodeError)
      end
  end.

(** [json.loads(s)] for a [str]: a leading byte order mark is refused.
    The budget of [decode] is never used up ([decode_budget] below). *)
Definition loads (s : str) : result value :=
  if startswith [65279%N] s then Raise JSONDecodeError
  else match decode s with
       | Some r => r
       | None => Raise JSONDecodeError
       end.

End Json.

(** ** [rag_techniques/utils.py] *)

Definition _is_primitive (x : value) : bool :=
  match x with
  | VNone | VStr _ | VInt _ | VFloat _ | VBool _ => true
  | VList _ | VDict _ => false
  end.

(** The loop of [_all_dicts_with_same_keys]: it returns at the first
    element whose keys are not [ks]. *)
Fixpoint same_keys_loop (ks : list str) (lst : list value) : result bool :=
  match lst with
  | [] => Ok true
  | el :: rest =>
      eks <- keys el ;;
      if negb (list_eqb eks ks) then Ok false else same_keys_loop ks rest
  end.

(** Whether every element of [lst] is a [dict] with the keys of the first
    one, in the same order; and those keys. *)
Definition _all_dicts_with_same_keys (lst : list value) : result (bool * list str) :=
  match lst with
  | [] => Ok (false, [])
  | first :: _ =>
      if negb (List.forallb is_dict lst) then Ok (false, [])
      else
        ks <- keys first ;;
        same <- same_keys_loop ks lst ;;
        if same then Ok (true, ks) else Ok (false, [])
  end.

Definition _needs_quote (s : value) : bool :=
  match s with
  | VStr s =>
      match s with
      | [] => true
      | c0 :: _ =>
          if isspace c0 || isspace (List.last s c0) then true
          else if List.existsb (fun ch => contains ch s) [COMMA; LF; CR; DQUOTE] then true
          else false
      end
  | _ => false
  end.

Definition _quote_str (s : str) : str :=
  let s2 := replace [DQUOTE] [BACKSLASH; DQUOTE] s in
  [DQUOTE] ++ s2 ++ [DQUOTE].

Definition _format_value (v : value) : str :=
  match v with
  | VNone => lit "null"
  | VBool b => if b then lit "true" else lit "false"
  | VInt n => str_of_int n
  | VFloat f => float_repr f
  | VStr s => if _needs_quote v then _quote_str s else s
  | VList _ | VDict _ => _quote_str (Json.dumps (lit ",") (lit ":") v)
  end.

(** [name] when it is given and not empty, the empty string otherwise. *)
Definition name_part (name : option str) : str :=
  match name with
  | Some (c :: n) => c :: n
  | _ => []
  end.

(** The rows of a tabular array: for each item, its values under the
    columns, joined by commas. *)
Definition table_rows (pad : str) (cols : list str) (lst : list value) : result (list str) :=
  mapM (fun item =>
          row_vals <- mapM (fun c => x <- getitem item c ;; Ok (_format_value x)) cols ;;
          Ok (pad ++ join (lit ",") row_vals)) lst.

(** [json_to_toon(data, name, indent)].  [out_lines] is the list of the
    strings appended in turn and the result is ["\n".join(out_lines)]; the
    local helper [write_named_line] of the source is never called.  The
    last branch, for objects outside the value model, cannot be reached. *)
Fixpoint json_to_toon (data : value) (name : option str) (indent : Z) {struct data}
  : result str :=
  let pad := spaces indent in
  match data with
  | VDict items =>
      (* for k, v in data.items() *)
      out_lines <-
        mapM (fun kv =>
          let k := fst kv in
          let v := snd kv in
          match v with
          | VDict _ =>
              (* key, then the nested block as one more entry *)
              sub <- json_to_toon v None (indent + 2) ;;
              Ok [pad ++ k ++ lit ":"; sub]
          | VList lst =>
              match lst with
              | [] => Ok [pad ++ k ++ lit "[0]:"]
              | _ :: _ =>
                  sc <- _all_dicts_with_same_keys lst ;;
                  let '(all_dicts, cols) := sc in
                  if all_dicts then
                    (* tabular array with header *)
                    let header := lit "{" ++ join (lit ",") cols ++ lit "}" in
                    rows <- table_rows pad cols lst ;;
                    Ok ((pad ++ k ++ lit "[" ++ len_text lst ++ lit "]" ++ header ++ lit ":")
                          :: rows)
                  else if List.forallb _is_primitive lst then
                    (* array of primitives, inline *)
                    let vals := List.map _format_value lst in
                    Ok [pad ++ k ++ lit "[" ++ len_text lst ++ lit "]: "
                            ++ join (lit ",") vals]
                  else
                    (* mixed or non-uniform: one entry per element *)
                    block <-
                      mapM (fun el =>
                              if _is_primitive el
                              then Ok (spaces (indent + 2) ++ _format_value el)
                              else json_to_toon el None (indent + 2)) lst ;;
                    Ok ((pad ++ k ++ lit "[" ++ len_text lst ++ lit "]:") :: block)
              end
          | _ =>
              (* primitive value *)
              Ok [pad ++ k ++ lit ": " ++ _format_value v]
          end) items ;;
      Ok (join [LF] (List.concat out_lines))
  | VList lst =>
      (* a list with no key: the same cases, with [name] if it is given *)
      match lst with
      | [] => Ok (pad ++ name_part name ++ lit "[0]:")
      | _ :: _ =>
          sc <- _all_dicts_with_same_keys lst ;;
          let '(all_dicts, cols) := sc in
          if all_dicts then
            let header := lit "{" ++ join (lit ",") cols ++ lit "}" in
            rows <- table_rows pad cols lst ;;
            Ok (join [LF]
                  ((pad ++ name_part name ++ lit "[" ++ len_text lst ++ lit "]"
                        ++ header ++ lit ":") :: rows))
          else if List.forallb _is_primitive lst then
            let vals := List.map _format_value lst in
            Ok (join [LF]
                  [pad ++ name_part name ++ lit "[" ++ len_text lst ++ lit "]: "
                       ++ join (lit ",") vals])
          else
            block <-
              mapM (fun el =>
                      if _is_primitive el
                      then Ok (spaces (indent + 2) ++ _format_value el)
                      else json_to_toon el None (indent + 2)) lst ;;
            Ok (join [LF]
                  ((pad ++ name_part name ++ lit "[" ++ len_text lst ++ lit "]:") :: block))
      end
  | _ =>
      (* primitive scalar at top level *)
      if _is_primitive data then
        match name with
        | Some (c :: n) => Ok (pad ++ (c :: n) ++ lit ": " ++ _format_value data)
        | _ => Ok (pad ++ _format_value data)
        end
      else
        (* fallback: the JSON text in quotes *)
        let txt := Json.dumps (lit ",") (lit ":") data in
        match name with
        | Some (c :: n) => Ok (pad ++ (c :: n) ++ lit ": " ++ [DQUOTE] ++ txt ++ [DQUOTE])
        | _ => Ok (pad ++ [DQUOTE] ++ txt ++ [DQUOTE])
        end
  end.

(** A [str] argument is JSON text and is parsed; anything else is taken
    as the parsed value. *)
Definition convert_json_to_toon (obj_or_json : value) : result str :=
  parsed <- match obj_or_json with
            | VStr s => Json.loads s
            | _ => Ok obj_or_json
            end ;;
  json_to_toon parsed None 0.

(** ** The encoder, one dictionary item and one array element at a time

    The body of the loop over [data.items()], and the body of the loop over
    the elements of a mixed array, as functions of their own;
    [json_to_toon_dict] and [json_to_toon_list] below show that
    [json_to_toon] is made of them. *)

Definition block_line (indent : Z) (el : value) : result str :=
  if _is_primitive el
  then Ok (spaces (indent + 2) ++ _format_value el)
  else json_to_toon el None (indent + 2).

(** The header of a tabular array. *)
Definition table_header (pad key : str) (cols : list str) (lst : list value) : str :=
  pad ++ key ++ lit "[" ++ len_text lst ++ lit "]"
      ++ (lit "{" ++ join (lit ",") cols ++ lit "}") ++ lit ":".

(** The one line of an array of primitives. *)
Definition inline_line (pad key : str) (lst : list value) : str :=
  pad ++ key ++ lit "[" ++ len_text lst ++ lit "]: "
      ++ join (lit ",") (List.map _format_value lst).

(** The header of a mixed array. *)
Definition block_header (pad key : str) (lst : list value) : str :=
  pad ++ key ++ lit "[" ++ len_text lst ++ lit "]:".

(** The lines a non-empty array gives under the key [key]. *)
Definition array_lines (indent : Z) (key : str) (lst : list value) : result (list str) :=
  let pad := spaces indent in
  sc <- _all_dicts_with_same_keys lst ;;
  if fst sc then
    rows <- table_rows pad (snd sc) lst ;;
    Ok (table_header pad key (snd sc) lst :: rows)
  else if List.forallb _is_primitive lst then
    Ok [inline_line pad key lst]
  else
    block <- mapM (block_line indent) lst ;;
    Ok (block_header pad key lst :: block).

(** The lines one item of a dictionary gives. *)
Definition item_lines (indent : Z) (kv : str * value) : result (list str) :=
  let pad := spaces indent in
  let k := fst kv in
  match snd kv with
  | VDict items =>
      sub <- json_to_toon (VDict items) None (indent + 2) ;;
      Ok [pad ++ k ++ lit ":"; sub]
  | VList [] => Ok [pad ++ k ++ lit "[0]:"]
  | VList lst => array_lines indent k lst
  | v => Ok [pad ++ k ++ lit ": " ++ _format_value v]
  end.

(** ** Notions of the specification *)

(** *** Values *)


Definition is_empty_dict (v : value) : bool :=
  match v with VDict [] => true | _ => false end.

Fixpoint distinct (ks : list str) : bool :=
  match ks with
  | [] => true
  | k :: rest => negb (List.existsb (str_eqb k) rest) && distinct rest
  end.

(** A well-formed value: the keys of every object are distinct. *)
Fixpoint well_formed (v : value) : bool :=
  match v with
  | VList elems => List.forallb well_formed elems
  | VDict items =>
      distinct (List.map fst items) && List.forallb (fun kv => well_formed (snd kv)) items
  | _ => true
  end.

(** No field of an object and no element of an array, at any depth of
    the value, is an empty object. *)
Fixpoint no_empty_child (v : value) : bool :=
  match v with
  | VList elems =>
      List.forallb (fun el => negb (is_empty_dict el) && no_empty_child el) elems
  | VDict items =>
      List.forallb (fun kv => negb (is_empty_dict (snd kv)) && no_empty_child (snd kv)) items
  | _ => true
  end.


(** *** Quoting *)

(** The string [s] with a backslash before every double quote. *)
Definition escape_quotes (s : str) : str :=
  List.flat_map (fun c => if N.eqb c DQUOTE then [BACKSLASH; DQUOTE] else [c]) s.

(** The quoting rule in the words of the specification. *)
Definition needs_quoting_rule (s : str) : Prop :=
  s = []
  \/ (exists c rest, s = c :: rest /\ isspace c = true)
  \/ (exists front c, s = front ++ [c] /\ isspace c = true)
  \/ In COMMA s \/ In CR s \/ In LF s \/ In DQUOTE s.

(** *** Tabular arrays *)

(** Every element of [lst] is an object with exactly the keys [cols], in
    that order, and [lst] is not empty. *)
Definition tabular (lst : list value) (cols : list str) : Prop :=
  lst <> [] /\
  Forall (fun el => exists items, el = VDict items /\ List.map fst items = cols) lst.


(** The values of an object, in the order of its keys. *)
Definition values (el : value) : list value :=
  match el with
  | VDict items => List.map snd items
  | _ => []
  end.

(** A cell of a tabular row as the specification describes it: a
    primitive is formatted as a scalar, an object or an array is its
    compact JSON text in double quotes with its double quotes escaped. *)
Definition cell_text (v : value) : str :=
  if _is_primitive v then _format_value v
  else [DQUOTE] ++ escape_quotes (Json.dumps (lit ",") (lit ":") v) ++ [DQUOTE].

(** The rows of a tabular array, from the values of its objects. *)
Definition rows_of (cell : value -> str) (pad : str) (lst : list value) : list str :=
  List.map (fun el => pad ++ join (lit ",") (List.map cell (values el))) lst.

(** *** Lines *)

(** The text ends with a newline character. *)
Definition ends_with_newline (s : str) : Prop := exists front, s = front ++ [LF].

(** The text is not empty and its last character is not a newline. *)
Definition tight (s : str) : Prop := exists front c, s = front ++ [c] /\ c <> LF.

(** No character of the text is a newline. *)
Definition plain (s : str) : Prop := Forall (fun c => c <> LF) s.

(** What the induction on the value carries: the text of a value without
    empty nested object is empty for the empty object and otherwise ends
    with a character that is not a newline. *)
Definition ends_well (v : value) : Prop :=
  no_empty_child v = true ->
  forall name indent s, json_to_toon v name indent = Ok s ->
  (v = VDict [] /\ s = []) \/ tight s.


(** *** Key lines *)




(** *** The decoder *)

(** What a scan of an input of [n] characters may give: an answer within
    the budget, that leaves less than it was given or raises
    [JSONDecodeError]. *)
Definition scan_sound {A : Type} (n : nat) (r : Json.scan (A * str)) : Prop :=
  match r with
  | None => False
  | Some (Ok (_, rest)) => (List.length rest < n)%nat
  | Some (Raise e) => e = JSONDecodeError
  end.

(** *** The end-to-end example *)

(** JSON text with its double quotes written as apostrophes. *)
Definition json_text (s : string) : str :=
  List.map (fun c => if N.eqb c 39 then DQUOTE else c) (lit s).

Definition example_text : str :=
  json_text "{'users':[{'id':1,'name':'Alice'},{'id':2,'name':'Bob'}],'tags':['x','y'],'meta':{'count':2}}".

Definition example_value : value :=
  VDict [ (lit "users",
           VList [ VDict [(lit "id", VInt 1); (lit "name", VStr (lit "Alice"))];
                   VDict [(lit "id", VInt 2); (lit "name", VStr (lit "Bob"))] ]);
          (lit "tags", VList [VStr (lit "x"); VStr (lit "y")]);
          (lit "meta", VDict [(lit "count", VInt 2)]) ].

Definition example_toon : str :=
  join [LF] [ lit "users[2]{id,name}:"; lit "1,Alice"; lit "2,Bob";
              lit "tags[2]: x,y"; lit "meta:"; lit "  count: 2" ].

(** A text written out character by character has no newline. *)
Ltac plain_lit := repeat (constructor; [discriminate|]); constructor.

(** *** Scalars *)

(** The characters of a printed number: digits, sign, point, exponent
    mark, and the letters of [inf] and [nan]. *)
Definition is_num_char (c : char) : bool :=
  Json.isdigit c
  || List.existsb (N.eqb c) [45; 43; 46; 101; 105; 110; 102; 97]%N.

(** A text written out in number characters. *)
Ltac num_lit := repeat (constructor; [reflexivity|]); constructor.

(** ** The callers: [rag.py], [query_index.py], [app.py], [summary_index_app.py]

    The parts of the pipeline around the encoder that compute: what is
    made of the answers of the language model, how the documents of the
    summary index are written and found again, and how the context of a
    query is put together.  The services themselves are inputs: [uuid n]
    is the text of the [n]-th identifier [uuid.uuid4()] draws,
    [respond i] the content of the answer to the [i]-th request. *)

(** *** Python operations on values *)

(** [for x in v]: the elements of a list, the keys of a dict, the
    characters of a str; nothing else can be iterated. *)
Definition iterate (v : value) : result (list value) :=
  match v with
  | VList elems => Ok elems
  | VDict items => Ok (List.map (fun kv => VStr (fst kv)) items)
  | VStr s => Ok (List.map (fun c => VStr [c]) s)
  | _ => Raise TypeError
  end.






(** [f"{v}"], that is [str(v)]; [py_repr] stands for the [repr] of a list
    or a dict, which the documents of the pipeline never need. *)
Definition fstr (py_repr : value -> str) (v : value) : str :=
  match v with
  | VStr s => s
  | VNone => lit "None"
  | VBool b => if b then lit "True" else lit "False"
  | VInt n => str_of_int n
  | VFloat f => float_repr f
  | VList _ | VDict _ => py_repr v
  end.

(** *** Documents *)

(** A [Document] of LangChain: its text and its metadata. *)
Record Document : Type := {
  page_content : str;
  metadata : list (str * value)
}.

(** What the pipeline does that can be observed from outside: pausing
    and asking the language model about a chunk. *)
Inductive event : Type :=
| Sleep (seconds : nat)
| Request (chunk_text : str).

(** *** [RAG.create_qna_index] *)

(** [i != 0 and i % 55 == 0] *)
Definition pause_due (i : nat) : bool := negb (Nat.eqb i 0) && Nat.eqb (i mod 55) 0.

(** The countdown: sixty sleeps of one second. *)
Definition countdown : list event := List.repeat (Sleep 1) 60.

Definition qna_document (py_repr : value -> str) (id : str) (source user_query answer : value)
  : Document :=
  {| page_content := lit "Question: " ++ fstr py_repr user_query
                     ++ [LF] ++ lit " Answer: " ++ fstr py_repr answer;
     metadata := [(lit "id", VStr id); (lit "source", source)] |}.

(** The loop over the items of one answer, [next] identifiers having been
    drawn before. *)
Fixpoint qna_items (py_repr : value -> str) (uuid : nat -> str) (chunk : Document)
    (next : nat) (queries : list value) : result (list Document) :=
  match queries with
  | [] => Ok []
  | query :: rest =>
      user_query <- getitem query (lit "Q") ;;
      answer <- getitem query (lit "A") ;;
      source <- getitem (VDict (metadata chunk)) (lit "source") ;;
      docs <- qna_items py_repr uuid chunk (S next) rest ;;
      Ok (qna_document py_repr (uuid next) source user_query answer :: docs)
  end.

(** The body of the [try]: parse the answer and make a document of each
    of its items. *)
Definition qna_parse (py_repr : value -> str) (uuid : nat -> str) (chunk : Document)
    (next : nat) (content : str) : result (list Document) :=
  queries <- Json.loads content ;;
  items <- getitem queries (lit "items") ;;
  elems <- iterate items ;;
  qna_items py_repr uuid chunk next elems.

(** [rag.py]: a [JSONDecodeError] is logged and the chunk gives no
    document; any other exception goes on. *)
Definition qna_response (py_repr : value -> str) (uuid : nat -> str) (chunk : Document)
    (next : nat) (content : str) : result (list Document) :=
  match qna_parse py_repr uuid chunk next content with
  | Raise JSONDecodeError => Ok []
  | r => r
  end.

(** The loop over the chunks, from the chunk of index [i] on: the events
    in their order and the documents handed to the vector store.
    [handle] is what is done with an answer: [qna_response] in [rag.py],
    [qna_parse], with no [try], in [query_index.py]. *)
Fixpoint qna_loop (handle : Document -> nat -> str -> result (list Document))
    (respond : nat -> str) (i : nat) (chunk_docs : list Document) (next : nat)
  : result (list event * list Document) :=
  match chunk_docs with
  | [] => Ok ([], [])
  | chunk :: rest =>
      let pause := if pause_due i then countdown else [] in
      docs <- handle chunk next (respond i) ;;
      r <- qna_loop handle respond (S i) rest (next + List.length docs)%nat ;;
      Ok (pause ++ Request (page_content chunk) :: fst r, docs ++ snd r)
  end.

Definition create_qna_index (py_repr : value -> str) (uuid : nat -> str)
    (respond : nat -> str) (chunk_docs : list Document)
  : result (list event * list Document) :=
  qna_loop (qna_response py_repr uuid) respond 0 chunk_docs 0.

(** The script [query_index.py]: the same loop without the [try]. *)
Definition query_index_script (py_repr : value -> str) (uuid : nat -> str)
    (respond : nat -> str) (chunk_docs : list Document)
  : result (list event * list Document) :=
  qna_loop (qna_parse py_repr uuid) respond 0 chunk_docs 0.

(** *** [RAG.create_summary_index] *)


(** [[{"id": doc_ids[i], "doc": doc.page_content} for i, doc in enumerate(docs)]];
    there are as many identifiers as documents. *)
Definition doc_map (ids : list str) (docs : list Document) : value :=
  VList (List.map (fun p => VDict [(lit "id", VStr (fst p));
                                   (lit "doc", VStr (page_content (snd p)))])
                  (List.combine ids docs)).

(** The text [json.dump(doc_map, f)] writes to [doc_map.json]. *)
Definition doc_map_file (ids : list str) (docs : list Document) : str :=
  Json.dumps (lit ", ") (lit ": ") (doc_map ids docs).


(** *** [summary_index_app.py]: the documents of the results *)



(** *** The context of a query *)

(** ["\n" + "-" * 10] *)
Definition separator : str := [LF] ++ List.repeat 45%N 10.

(** [for res in records: context += convert_json_to_toon(res);
    context += separator] *)
Fixpoint build_context (context : str) (records : list value) : result str :=
  match records with
  | [] => Ok context
  | res :: rest =>
      toon <- convert_json_to_toon res ;;
      build_context ((context ++ toon) ++ separator) rest
  end.

(** [app.py] passes the text of each result. *)
Definition app_context (results : list Document) : result str :=
  build_context [] (List.map (fun res => VStr (page_content res)) results).

(** *** Traces *)





(** *** Values that JSON text carries unchanged *)

(** A Unicode scalar value: a code point that is no surrogate. *)
Definition is_scalar (c : char) : bool :=
  ((c <=? 1114111) && negb ((55296 <=? c) && (c <=? 57343)))%N.

(** A text of scalar values: what [str.encode] accepts. *)
Definition is_text (s : str) : bool := List.forallb is_scalar s.

(** A value without floats, whose strings and keys are texts of scalar
    values and whose objects have distinct keys. *)
Fixpoint json_safe (v : value) : bool :=
  match v with
  | VFloat _ => false
  | VStr s => is_text s
  | VList elems => List.forallb json_safe elems
  | VDict items =>
      distinct (List.map fst items)
      && List.forallb (fun kv => is_text (fst kv) && json_safe (snd kv)) items
  | _ => true
  end.

(** Whitespace only. *)
Definition blank (ws : str) : bool := List.forallb Json.is_ws ws.

(** A text that does not go on with a number: it is empty or starts
    with no digit, point or exponent mark. *)
Definition delimited (rest : str) : bool :=
  match rest with
  | [] => true
  | c :: _ => negb (Json.isdigit c || N.eqb c 46 || N.eqb c 101 || N.eqb c 69)
  end.

(** The number the decimal digits [d] stand for after the digits of [acc]. *)
Fixpoint uint_value (d : Decimal.uint) (acc : Z) : Z :=
  match d with
  | Decimal.Nil => acc
  | Decimal.D0 d' => uint_value d' (10 * acc + 0)
  | Decimal.D1 d' => uint_value d' (10 * acc + 1)
  | Decimal.D2 d' => uint_value d' (10 * acc + 2)
  | Decimal.D3 d' => uint_value d' (10 * acc + 3)
  | Decimal.D4 d' => uint_value d' (10 * acc + 4)
  | Decimal.D5 d' => uint_value d' (10 * acc + 5)
  | Decimal.D6 d' => uint_value d' (10 * acc + 6)
  | Decimal.D7 d' => uint_value d' (10 * acc + 7)
  | Decimal.D8 d' => uint_value d' (10 * acc + 8)
  | Decimal.D9 d' => uint_value d' (10 * acc + 9)
  end.

(** A scan that gives a value gives a well-formed one. *)
Definition scan_wf (r : Json.scan (value * str)) : Prop :=
  match r with
  | Some (Ok (v, _)) => well_formed v = true
  | _ => True
  end.

(** The text [json.dumps] writes for [v] is read back: followed by any
    text that does not go on with a number, it is scanned as [v] and that
    text. *)
Definition reads_back (item_sep key_sep : str) (v : value) : Prop :=
  json_safe v = true ->
  forall budget rest,
    delimited rest = true ->
    (List.length (Json.dumps item_sep key_sep v ++ rest) < budget)%nat ->
    Json.scan_once budget (Json.dumps item_sep key_sep v ++ rest) = Some (Ok (v, rest)).
(** ** Strings *)

Lemma str_eqb_eq (a b : str) : str_eqb a b = true <-> a = b.
Proof.
  revert b; induction a as [|x a IH]; intros [|y b]; simpl; split; intros H;
    try reflexivity; try discriminate.
  - apply andb_true_iff in H as [Hx Hr]. apply N.eqb_eq in Hx.
    apply IH in Hr. now subst.
  - injection H as -> ->. rewrite N.eqb_refl. now apply IH.
Qed.

Lemma str_eqb_refl (a : str) : str_eqb a a = true.
Proof. now apply str_eqb_eq. Qed.

Lemma list_eqb_eq (a b : list str) : list_eqb a b = true <-> a = b.
Proof.
  revert b; induction a as [|x a IH]; intros [|y b]; simpl; split; intros H;
    try reflexivity; try discriminate.
  - apply andb_true_iff in H as [Hx Hr]. apply str_eqb_eq in Hx.
    apply IH in Hr. now subst.
  - injection H as -> ->. rewrite str_eqb_refl. now apply IH.
Qed.

Lemma contains_In (c : char) (s : str) : contains c s = true <-> In c s.
Proof.
  unfold contains. rewrite existsb_exists. split.
  - intros (x & Hin & Heq). apply N.eqb_eq in Heq. now subst.
  - intros Hin. exists c. split; [assumption | apply N.eqb_refl].
Qed.

(** Replacing a one-character pattern rewrites the text character by
    character. *)
Lemma replace_char (c : char) (new s : str) :
  replace [c] new s = List.flat_map (fun x => if N.eqb x c then new else [x]) s.
Proof.
  unfold replace. induction s as [|x s IH]; [reflexivity|].
  cbn [replace_from startswith List.length Nat.pred flat_map].
  rewrite (N.eqb_sym c x). destruct (N.eqb x c); cbn [andb].
  - destruct s; now rewrite IH.
  - now rewrite IH.
Qed.

Lemma _quote_str_spec (s : str) :
  _quote_str s = [DQUOTE] ++ escape_quotes s ++ [DQUOTE].
Proof. unfold _quote_str, escape_quotes. now rewrite replace_char. Qed.

Lemma last_cons_exists (c : char) (rest : str) :
  exists front, c :: rest = front ++ [List.last (c :: rest) c].
Proof.
  destruct (exists_last (l := c :: rest)) as (front & x & E); [discriminate|].
  exists front. rewrite E at 2. now rewrite last_last.
Qed.

(** ** The result monad *)

Lemma mapM_cons {A B : Type} (f : A -> result B) (a : A) (l : list A) :
  mapM f (a :: l) = (b <- f a ;; bs <- mapM f l ;; Ok (b :: bs)).
Proof. reflexivity. Qed.

Lemma mapM_ext {A B : Type} (f g : A -> result B) (l : list A) :
  (forall a, In a l -> f a = g a) -> mapM f l = mapM g l.
Proof.
  induction l as [|a l IH]; intros H; [reflexivity|].
  simpl. rewrite (H a (or_introl eq_refl)).
  rewrite IH; [reflexivity|]. intros x Hx. apply H. now right.
Qed.

Lemma mapM_Ok {A B : Type} (f : A -> result B) (g : A -> B) (l : list A) :
  (forall a, In a l -> f a = Ok (g a)) -> mapM f l = Ok (List.map g l).
Proof.
  induction l as [|a l IH]; intros H; [reflexivity|].
  simpl. rewrite (H a (or_introl eq_refl)). simpl.
  rewrite IH; [reflexivity|]. intros x Hx. apply H. now right.
Qed.


Lemma mapM_inv {A B : Type} (f : A -> result B) (l : list A) (bs : list B) :
  mapM f l = Ok bs -> Forall2 (fun a b => f a = Ok b) l bs.
Proof.
  revert bs; induction l as [|a l IH]; intros bs H; simpl in H.
  - injection H as <-. constructor.
  - destruct (f a) as [b|e] eqn:Ha; [|discriminate]. simpl in H.
    destruct (mapM f l) as [bs'|e] eqn:Hl; [|discriminate]. simpl in H.
    injection H as <-. constructor; [assumption | now apply IH].
Qed.

(** ** [json_to_toon] in terms of its loop bodies *)

Lemma json_to_toon_dict (items : list (str * value)) (name : option str) (indent : Z) :
  json_to_toon (VDict items) name indent
  = (out_lines <- mapM (item_lines indent) items ;;
     Ok (join [LF] (List.concat out_lines))).
Proof.
  cbn [json_to_toon]. f_equal. apply mapM_ext. intros [k v] _.
  unfold item_lines. cbn [fst snd].
  destruct v as [| | | | |lst|d]; try reflexivity.
  destruct lst as [|el lst]; [reflexivity|].
  unfold array_lines.
  destruct (_all_dicts_with_same_keys (el :: lst)) as [[b cols]|e]; reflexivity.
Qed.

Lemma json_to_toon_list (el : value) (lst : list value) (name : option str) (indent : Z) :
  json_to_toon (VList (el :: lst)) name indent
  = (lines <- array_lines indent (name_part name) (el :: lst) ;;
     Ok (join [LF] lines)).
Proof.
  cbn [json_to_toon]. unfold array_lines.
  destruct (_all_dicts_with_same_keys (el :: lst)) as [[b cols]|e]; [|reflexivity].
  cbn [bind fst snd]. destruct b.
  - unfold table_header. destruct (table_rows _ cols (el :: lst)); reflexivity.
  - destruct (forallb _is_primitive (el :: lst)); [reflexivity|].
    unfold block_header.
    transitivity (block <- mapM (block_line indent) (el :: lst) ;;
                  Ok (join [LF]
                        ((spaces indent ++ name_part name ++ lit "["
                            ++ len_text (el :: lst) ++ lit "]:") :: block)));
      [reflexivity|].
    destruct (mapM (block_line indent) (el :: lst)); reflexivity.
Qed.

(** ** Schema detection *)

Lemma forallb_is_dict (lst : list value) :
  List.forallb is_dict lst = true <-> Forall (fun el => exists items, el = VDict items) lst.
Proof.
  rewrite forallb_forall, Forall_forall. split; intros H el Hin.
  - specialize (H el Hin). destruct el; try discriminate. now eexists.
  - destruct (H el Hin) as [items ->]. reflexivity.
Qed.

Lemma same_keys_loop_Ok (ks : list str) (lst : list value) :
  Forall (fun el => exists items, el = VDict items) lst ->
  same_keys_loop ks lst
  = Ok (List.forallb (fun el => match el with
                                | VDict items => list_eqb (List.map fst items) ks
                                | _ => false
                                end) lst).
Proof.
  induction 1 as [|el lst [items ->] _ IH]; [reflexivity|].
  cbn [same_keys_loop keys bind forallb]. rewrite IH.
  now destruct (list_eqb (List.map fst items) ks).
Qed.

(** The detection never raises: [keys] is only taken of dictionaries. *)
Lemma schema_total (lst : list value) :
  exists b cols, _all_dicts_with_same_keys lst = Ok (b, cols).
Proof.
  destruct lst as [|first rest]; [now exists false, []|].
  unfold _all_dicts_with_same_keys.
  destruct (forallb is_dict (first :: rest)) eqn:Hd; cbn [negb]; [|now exists false, []].
  apply forallb_is_dict in Hd.
  pose proof Hd as Hd'. apply Forall_inv in Hd' as [items ->]. cbn [keys bind].
  rewrite (same_keys_loop_Ok _ _ Hd). cbn [bind].
  destruct (forallb _ _); [now exists true, (List.map fst items) | now exists false, []].
Qed.

Lemma schema_tabular (lst : list value) (cols : list str) :
  tabular lst cols -> _all_dicts_with_same_keys lst = Ok (true, cols).
Proof.
  intros [Hne HF]. destruct lst as [|first rest]; [contradiction|].
  unfold _all_dicts_with_same_keys.
  assert (Hd : Forall (fun el => exists items, el = VDict items) (first :: rest)).
  { eapply Forall_impl; [|exact HF]. intros el (items & -> & _). now eexists. }
  rewrite (proj2 (forallb_is_dict _) Hd). cbn [negb].
  pose proof HF as HF'. apply Forall_inv in HF' as (items & -> & Hk). cbn [keys bind].
  rewrite (same_keys_loop_Ok _ _ Hd). cbn [bind]. rewrite Hk.
  replace (forallb _ _) with true; [reflexivity|].
  symmetry. apply forallb_forall. intros el Hin.
  rewrite Forall_forall in HF. destruct (HF el Hin) as (its & -> & Hk').
  rewrite Hk'. now apply list_eqb_eq.
Qed.

Lemma schema_inv (lst : list value) (cols : list str) :
  _all_dicts_with_same_keys lst = Ok (true, cols) -> tabular lst cols.
Proof.
  destruct lst as [|first rest]; [discriminate|].
  unfold _all_dicts_with_same_keys.
  destruct (forallb is_dict (first :: rest)) eqn:Hd; cbn [negb]; [|discriminate].
  apply forallb_is_dict in Hd.
  pose proof Hd as Hd'. apply Forall_inv in Hd' as [items ->]. cbn [keys bind].
  rewrite (same_keys_loop_Ok _ _ Hd). cbn [bind].
  destruct (forallb _ _) eqn:Hs; [|discriminate].
  intros [= <-]. split; [discriminate|].
  rewrite forallb_forall in Hs. rewrite Forall_forall in Hd |- *.
  intros el Hin. destruct (Hd el Hin) as [its ->]. exists its. split; [reflexivity|].
  apply list_eqb_eq. apply (Hs _ Hin).
Qed.

(** Without a schema the detection answers [(False, [])]. *)
Lemma schema_none (lst : list value) (b : bool) (cols : list str) :
  _all_dicts_with_same_keys lst = Ok (b, cols) -> b = false -> cols = [].
Proof.
  intros H ->. destruct lst as [|first rest]; [now injection H|].
  unfold _all_dicts_with_same_keys in H.
  destruct (negb _); [now injection H|].
  destruct (keys first) as [ks|]; [|discriminate]. cbn [bind] in H.
  destruct (same_keys_loop ks _) as [same|]; [|discriminate]. cbn [bind] in H.
  destruct same; [discriminate | now injection H].
Qed.

(** One element that is not an object with the keys of the first element
    leaves the whole array without a schema. *)
Lemma schema_mismatch (first : value) (rest : list value) :
  Exists (fun el => keys el <> keys first) (first :: rest) ->
  _all_dicts_with_same_keys (first :: rest) = Ok (false, []).
Proof.
  intros Hex.
  destruct (schema_total (first :: rest)) as (b & cols & H).
  destruct b; [|now rewrite H, (schema_none _ _ _ H eq_refl)].
  exfalso. apply schema_inv in H as [_ HF].
  apply Exists_exists in Hex as (el & Hin & Hne). apply Hne.
  rewrite Forall_forall in HF.
  destruct (HF el Hin) as (its & -> & Hk).
  destruct (HF first (or_introl eq_refl)) as (its0 & -> & Hk0).
  cbn [keys]. now rewrite Hk, Hk0.
Qed.

(** ** Rows *)


(** In an object with distinct keys, looking the keys up in order gives
    the values in order. *)
Lemma row_cells (items : list (str * value)) :
  NoDup (List.map fst items) ->
  mapM (fun c => x <- getitem (VDict items) c ;; Ok (_format_value x)) (List.map fst items)
  = Ok (List.map _format_value (List.map snd items)).
Proof.
  intros Hnd.
  assert (G : forall its, (forall k v, In (k, v) its -> lookup k items = Some v) ->
            mapM (fun c => x <- getitem (VDict items) c ;; Ok (_format_value x))
                 (List.map fst its)
            = Ok (List.map _format_value (List.map snd its))).
  { induction its as [|[k v] its IH]; intros H; [reflexivity|].
    cbn [List.map fst snd]. rewrite mapM_cons. unfold getitem at 1.
    rewrite (H k v (or_introl eq_refl)).
    cbn [bind]. rewrite IH; [reflexivity|]. intros k' v' Hin. apply H. now right. }
  apply G. clear G. induction items as [|[k0 v0] items IH]; [contradiction|].
  cbn [List.map fst] in Hnd. apply NoDup_cons_iff in Hnd as [Hnin Hnd].
  intros k v [[= <- <-]|Hin]; cbn [lookup].
  - now rewrite str_eqb_refl.
  - destruct (str_eqb k0 k) eqn:E; [|now apply IH].
    apply str_eqb_eq in E. subst k0. exfalso. apply Hnin.
    apply in_map_iff. now exists (k, v).
Qed.



Lemma table_rows_values (pad : str) (lst : list value) (cols : list str) :
  tabular lst cols -> NoDup cols ->
  table_rows pad cols lst
  = Ok (List.map (fun el => pad ++ join (lit ",") (List.map _format_value (values el))) lst).
Proof.
  intros [_ HF] Hnd. unfold table_rows. apply mapM_Ok. intros el Hin.
  rewrite Forall_forall in HF. destruct (HF el Hin) as (items & -> & Hk).
  subst cols. rewrite (row_cells items Hnd). reflexivity.
Qed.

(** ** Totality of the encoder *)

Lemma name_part_Some (k : str) : name_part (Some k) = k.
Proof. now destruct k. Qed.






(** ** The end-to-end example *)

(** C1. The JSON text of the example parses to the example value, and
    [convert_json_to_toon] applied to the text or to the parsed value
    returns the six lines [users[2]{id,name}:], [1,Alice], [2,Bob],
    [tags[2]: x,y], [meta:] and [  count: 2] joined by single newlines. *)
Theorem end_to_end_example :
  Json.loads example_text = Ok example_value
  /\ convert_json_to_toon (VStr example_text) = Ok example_toon
  /\ convert_json_to_toon example_value = Ok example_toon.
Proof. repeat split; vm_compute; reflexivity. Qed.

(** C9. An empty object with no name at indent 0 encodes to the empty
    string, directly and through [convert_json_to_toon], from the value or
    from the text [{}]. *)
Theorem empty_object_output :
  json_to_toon (VDict []) None 0 = Ok []
  /\ convert_json_to_toon (VDict []) = Ok []
  /\ convert_json_to_toon (VStr (lit "{}")) = Ok [].
Proof. repeat split; vm_compute; reflexivity. Qed.

(** ** Quoting *)

Lemma _needs_quote_rule (s : str) : _needs_quote (VStr s) = true <-> needs_quoting_rule s.
Proof.
  unfold needs_quoting_rule. destruct s as [|c0 rest].
  - split; [now left | reflexivity].
  - cbn [_needs_quote].
    destruct (isspace c0) eqn:H0; cbn [orb].
    { split; [|reflexivity]. intros _. right; left. now exists c0, rest. }
    destruct (isspace (List.last (c0 :: rest) c0)) eqn:Hl.
    { split; [|reflexivity]. intros _. right; right; left.
      destruct (last_cons_exists c0 rest) as [front E]. eauto. }
    cbn [existsb]. rewrite orb_false_r.
    destruct (contains COMMA (c0 :: rest)) eqn:Hc; cbn [orb].
    { split; [|reflexivity]. intros _. do 3 right. left. now apply contains_In. }
    destruct (contains LF (c0 :: rest)) eqn:Hn; cbn [orb].
    { split; [|reflexivity]. intros _. do 5 right. left. now apply contains_In. }
    destruct (contains CR (c0 :: rest)) eqn:Hr; cbn [orb].
    { split; [|reflexivity]. intros _. do 4 right. left. now apply contains_In. }
    destruct (contains DQUOTE (c0 :: rest)) eqn:Hq.
    { split; [|reflexivity]. intros _. do 6 right. now apply contains_In. }
    split; [discriminate|].
    intros [E|[(c & r & E & Hs)|[(front & c & E & Hs)|[H|[H|[H|H]]]]]].
    + discriminate.
    + injection E as <- <-. congruence.
    + rewrite E, last_last in Hl. congruence.
    + apply contains_In in H. congruence.
    + apply contains_In in H. congruence.
    + apply contains_In in H. congruence.
    + apply contains_In in H. congruence.
Qed.

(** C3. Quoting rule: a string needs quoting exactly when it is empty, or
    its first or last character is whitespace, or it contains a comma, a
    carriage return, a line feed or a double quote; a string that does not
    is formatted unchanged, so strings with a colon or a brace stay
    unquoted; a string that does is formatted with a backslash before each
    double quote and double quotes around the whole. *)
Theorem quoting_rule :
  (forall s, _needs_quote (VStr s) = true <-> needs_quoting_rule s)
  /\ (forall s, _needs_quote (VStr s) = false -> _format_value (VStr s) = s)
  /\ (forall s, _needs_quote (VStr s) = true ->
        _format_value (VStr s) = [DQUOTE] ++ escape_quotes s ++ [DQUOTE])
  /\ _format_value (VStr (lit "a:b")) = lit "a:b"
  /\ _format_value (VStr (lit "{x}")) = lit "{x}".
Proof.
  split; [exact _needs_quote_rule|].
  split; [intros s H; cbn [_format_value]; now rewrite H|].
  split; [|split; reflexivity].
  intros s H. cbn [_format_value]. rewrite H. apply _quote_str_spec.
Qed.

(** Instances of the quoting rule: an empty string, a leading space, a
    comma and an embedded double quote are quoted; a plain word is not. *)
Lemma quoting_rule_witness :
  _format_value (VStr []) = [DQUOTE; DQUOTE]
  /\ _format_value (VStr (lit " a")) = [DQUOTE] ++ lit " a" ++ [DQUOTE]
  /\ _format_value (VStr (lit "a,b")) = [DQUOTE] ++ lit "a,b" ++ [DQUOTE]
  /\ _format_value (VStr (lit "a" ++ [DQUOTE] ++ lit "b"))
     = [DQUOTE] ++ lit "a\" ++ [DQUOTE] ++ lit "b" ++ [DQUOTE]
  /\ _format_value (VStr (lit "abc")) = lit "abc".
Proof.
  destruct quoting_rule as (_ & Hplain & Hquoted & _).
  split; [|split; [|split; [|split]]].
  - now rewrite Hquoted.
  - now rewrite Hquoted.
  - now rewrite Hquoted.
  - now rewrite Hquoted.
  - now rewrite Hplain.
Defined.

(** ** Examples of the specification *)

Example empty_array_example :
  convert_json_to_toon (VStr (json_text "{'k': []}")) = Ok (lit "k[0]:").
Proof. reflexivity. Qed.

Example scalar_passthrough_example :
  convert_json_to_toon (VStr (json_text "{'n': 5}")) = Ok (lit "n: 5")
  /\ convert_json_to_toon (VStr (json_text "{'b': true}")) = Ok (lit "b: true")
  /\ convert_json_to_toon (VStr (json_text "{'x': null}")) = Ok (lit "x: null").
Proof. repeat split. Qed.

Example input_forms_example :
  convert_json_to_toon (VStr (json_text "{'a':1}"))
  = convert_json_to_toon (VDict [(lit "a", VInt 1)]).
Proof. reflexivity. Qed.

Example float_example :
  convert_json_to_toon (VStr (json_text "{'pi': 3.14, 'big': 1e22, 'half': 0.50}"))
  = Ok (join [LF] [lit "pi: 3.14"; lit "big: 1e+22"; lit "half: 0.5"]).
Proof. vm_compute. reflexivity. Qed.

Example mixed_array_example :
  convert_json_to_toon (VStr (json_text "{'m': [1, {'a': 2}, [3, 4], 'x y']}"))
  = Ok (join [LF] [lit "m[4]:"; lit "  1"; lit "  a: 2"; lit "  [2]: 3,4"; lit "  x y"]).
Proof. vm_compute. reflexivity. Qed.

(** ** One field of an object *)

Lemma mapM_app {A B : Type} (f : A -> result B) (l1 l2 : list A) :
  mapM f (l1 ++ l2) = (a <- mapM f l1 ;; b <- mapM f l2 ;; Ok (a ++ b)).
Proof.
  induction l1 as [|x l1 IH]; cbn [app mapM bind].
  - now destruct (mapM f l2).
  - destruct (f x); [|reflexivity]. cbn [bind]. rewrite IH.
    destruct (mapM f l1); [|reflexivity]. cbn [bind].
    now destruct (mapM f l2).
Qed.

(** The text of an object is made of the lines of the items before a
    field, the lines of the field and the lines of the items after it. *)
Lemma json_to_toon_field (before after : list (str * value)) (kv : str * value)
    (name : option str) (indent : Z) :
  json_to_toon (VDict (before ++ kv :: after)) name indent
  = (pre <- mapM (item_lines indent) before ;;
     mid <- item_lines indent kv ;;
     post <- mapM (item_lines indent) after ;;
     Ok (join [LF] (List.concat pre ++ mid ++ List.concat post))).
Proof.
  rewrite json_to_toon_dict, mapM_app.
  destruct (mapM (item_lines indent) before) as [pre|]; [|reflexivity]. cbn [bind].
  rewrite mapM_cons.
  destruct (item_lines indent kv) as [mid|]; [|reflexivity]. cbn [bind].
  destruct (mapM (item_lines indent) after) as [post|]; [|reflexivity]. cbn [bind].
  now rewrite concat_app.
Qed.

Lemma item_lines_array (indent : Z) (k : str) (lst : list value) :
  lst <> [] -> item_lines indent (k, VList lst) = array_lines indent k lst.
Proof. destruct lst; [contradiction | reflexivity]. Qed.

Lemma tabular_item_lines (indent : Z) (k : str) (lst : list value) (cols : list str) :
  tabular lst cols -> NoDup cols ->
  item_lines indent (k, VList lst)
  = Ok ((spaces indent ++ k ++ lit "[" ++ len_text lst ++ lit "]{"
           ++ join (lit ",") cols ++ lit "}:")
          :: rows_of _format_value (spaces indent) lst).
Proof.
  intros Htab Hnd. rewrite item_lines_array by apply Htab.
  unfold array_lines. rewrite (schema_tabular _ _ Htab). cbn [bind fst snd].
  rewrite (table_rows_values _ _ _ Htab Hnd). cbn [bind].
  unfold table_header, rows_of. do 2 f_equal.
  now rewrite <- !app_assoc.
Qed.

Lemma mismatch_item_lines (indent : Z) (k : str) (first : value) (rest : list value) :
  Exists (fun el => keys el <> keys first) (first :: rest) ->
  item_lines indent (k, VList (first :: rest))
  = if List.forallb _is_primitive (first :: rest)
    then Ok [spaces indent ++ k ++ lit "[" ++ len_text (first :: rest) ++ lit "]: "
               ++ join (lit ",") (List.map _format_value (first :: rest))]
    else (block <- mapM (block_line indent) (first :: rest) ;;
          Ok ((spaces indent ++ k ++ lit "[" ++ len_text (first :: rest) ++ lit "]:")
                :: block)).
Proof.
  intros Hex. rewrite item_lines_array by discriminate.
  unfold array_lines. rewrite (schema_mismatch _ _ Hex). reflexivity.
Qed.

Lemma cell_text_format (v : value) : cell_text v = _format_value v.
Proof.
  unfold cell_text. destruct v; cbn [_is_primitive _format_value];
    try reflexivity; now rewrite _quote_str_spec.
Qed.

Lemma rows_of_ext (f g : value -> str) (pad : str) (lst : list value) :
  (forall v, f v = g v) -> rows_of f pad lst = rows_of g pad lst.
Proof.
  intros H. unfold rows_of. apply map_ext. intros el. do 2 f_equal.
  apply map_ext. exact H.
Qed.

(** C2. Tabular exactness.  A field whose value is a non-empty array of
    objects that all have the key sequence [cols] gives, at its place
    among the lines of the object, the header [KEY[N]{c1,...,cm}:] and
    then one row per element (one entry of [out_lines] each): the
    element's values in column order, each formatted by [_format_value]
    and joined by commas.  If some element is not an object with the key
    sequence of the first element, the detection finds no schema and the
    whole field is the one line of an array of primitives or, otherwise,
    the block with one entry per element.  The detection reports the
    schema [cols] exactly for the arrays of the first kind. *)
Theorem tabular_exactness :
  (forall indent name before k lst after cols,
      tabular lst cols -> NoDup cols ->
      _all_dicts_with_same_keys lst = Ok (true, cols)
      /\ List.length (rows_of _format_value (spaces indent) lst) = List.length lst
      /\ json_to_toon (VDict (before ++ (k, VList lst) :: after)) name indent
         = (pre <- mapM (item_lines indent) before ;;
            post <- mapM (item_lines indent) after ;;
            Ok (join [LF]
                  (List.concat pre
                   ++ ((spaces indent ++ k ++ lit "[" ++ len_text lst ++ lit "]{"
                          ++ join (lit ",") cols ++ lit "}:")
                         :: rows_of _format_value (spaces indent) lst)
                   ++ List.concat post))))
  /\ (forall indent name before k first rest after,
         Exists (fun el => keys el <> keys first) (first :: rest) ->
         _all_dicts_with_same_keys (first :: rest) = Ok (false, [])
         /\ json_to_toon (VDict (before ++ (k, VList (first :: rest)) :: after)) name indent
            = (pre <- mapM (item_lines indent) before ;;
               mid <- (if List.forallb _is_primitive (first :: rest)
                       then Ok [spaces indent ++ k ++ lit "["
                                  ++ len_text (first :: rest) ++ lit "]: "
                                  ++ join (lit ",") (List.map _format_value (first :: rest))]
                       else (block <- mapM (block_line indent) (first :: rest) ;;
                             Ok ((spaces indent ++ k ++ lit "["
                                    ++ len_text (first :: rest) ++ lit "]:") :: block))) ;;
               post <- mapM (item_lines indent) after ;;
               Ok (join [LF] (List.concat pre ++ mid ++ List.concat post))))
  /\ (forall lst cols,
         _all_dicts_with_same_keys lst = Ok (true, cols) <-> tabular lst cols).
Proof.
  split; [|split; [|split; [apply schema_inv | apply schema_tabular]]].
  - intros indent name before k lst after cols Htab Hnd.
    split; [now apply schema_tabular|].
    split; [unfold rows_of; apply length_map|].
    rewrite json_to_toon_field, (tabular_item_lines _ _ _ _ Htab Hnd).
    destruct (mapM (item_lines indent) before); reflexivity.
  - intros indent name before k first rest after Hex.
    split; [now apply schema_mismatch|].
    now rewrite json_to_toon_field, (mismatch_item_lines _ _ _ _ Hex).
Qed.

(** The tabular array of the end-to-end example, and the same array with
    the keys of its second element swapped. *)
Lemma tabular_exactness_witness :
  json_to_toon
    (VDict [(lit "users",
             VList [ VDict [(lit "id", VInt 1); (lit "name", VStr (lit "Alice"))];
                     VDict [(lit "id", VInt 2); (lit "name", VStr (lit "Bob"))] ])])
    None 0
  = Ok (join [LF] [lit "users[2]{id,name}:"; lit "1,Alice"; lit "2,Bob"])
  /\ json_to_toon
       (VDict [(lit "users",
                VList [ VDict [(lit "id", VInt 1); (lit "name", VStr (lit "Alice"))];
                        VDict [(lit "name", VStr (lit "Bob")); (lit "id", VInt 2)] ])])
       None 0
     = Ok (join [LF] [lit "users[2]:"; join [LF] [lit "  id: 1"; lit "  name: Alice"];
                      join [LF] [lit "  name: Bob"; lit "  id: 2"]]).
Proof.
  destruct tabular_exactness as (Htab & Hmis & _). split.
  - refine (eq_trans
              (proj2 (proj2 (Htab 0 None [] (lit "users") _ [] [lit "id"; lit "name"] _ _)))
              eq_refl).
    + split; [discriminate|].
      repeat constructor; eexists; split; reflexivity.
    + repeat constructor; cbn; intuition discriminate.
  - refine (eq_trans (proj2 (Hmis 0 None [] (lit "users") _ _ [] _)) eq_refl).
    apply Exists_cons_tl, Exists_cons_hd. discriminate.
Defined.

(** C8. Tabular-cell fallback.  An object or an array is formatted as
    its compact JSON text (separators [,] and [:] with no space), with a
    backslash before each double quote and double quotes around it; a
    tabular array has the same header and one row per element whatever its
    cells hold, each cell being a scalar or such a quoted text. *)
Theorem tabular_cell_fallback :
  (forall v, _is_primitive v = false ->
     _format_value v
     = [DQUOTE] ++ escape_quotes (Json.dumps (lit ",") (lit ":") v) ++ [DQUOTE])
  /\ (forall indent name before k lst after cols,
         tabular lst cols -> NoDup cols ->
         json_to_toon (VDict (before ++ (k, VList lst) :: after)) name indent
         = (pre <- mapM (item_lines indent) before ;;
            post <- mapM (item_lines indent) after ;;
            Ok (join [LF]
                  (List.concat pre
                   ++ ((spaces indent ++ k ++ lit "[" ++ len_text lst ++ lit "]{"
                          ++ join (lit ",") cols ++ lit "}:")
                         :: rows_of cell_text (spaces indent) lst)
                   ++ List.concat post))))
  /\ _format_value (VDict [(lit "a", VList [VInt 1; VStr (lit "x y")])])
     = [DQUOTE] ++ lit "{\" ++ [DQUOTE] ++ lit "a\" ++ [DQUOTE] ++ lit ":[1,\"
         ++ [DQUOTE] ++ lit "x y\" ++ [DQUOTE] ++ lit "]}" ++ [DQUOTE].
Proof.
  split; [|split; [|reflexivity]].
  - intros v Hv. rewrite <- cell_text_format. unfold cell_text. now rewrite Hv.
  - intros indent name before k lst after cols Htab Hnd.
    rewrite json_to_toon_field, (tabular_item_lines _ _ _ _ Htab Hnd).
    rewrite (rows_of_ext cell_text _format_value _ _ cell_text_format).
    destruct (mapM (item_lines indent) before); reflexivity.
Qed.

(** A tabular array whose second column holds an array in one row and an
    object in the other. *)
Lemma tabular_cell_fallback_witness :
  json_to_toon
    (VDict [(lit "t",
             VList [ VDict [(lit "id", VInt 1); (lit "v", VList [VInt 1; VInt 2])];
                     VDict [(lit "id", VInt 2); (lit "v", VDict [(lit "k", VNone)])] ])])
    None 0
  = Ok (join [LF]
          [ lit "t[2]{id,v}:";
            lit "1," ++ [DQUOTE] ++ lit "[1,2]" ++ [DQUOTE];
            lit "2," ++ [DQUOTE] ++ lit "{\" ++ [DQUOTE] ++ lit "k\" ++ [DQUOTE]
              ++ lit ":null}" ++ [DQUOTE] ]).
Proof.
  refine (eq_trans
            (proj1 (proj2 tabular_cell_fallback) 0 None [] (lit "t") _ [] [lit "id"; lit "v"] _ _)
            eq_refl).
  - split; [discriminate|].
    repeat constructor; eexists; split; reflexivity.
  - repeat constructor; cbn; intuition discriminate.
Defined.

(** ** The decoder stays within its budget *)

Lemma scan_sound_le {A : Type} (n m : nat) (r : Json.scan (A * str)) :
  scan_sound n r -> (n <= m)%nat -> scan_sound m r.
Proof. destruct r as [[[v rest]|e]|]; cbn; [lia | trivial | trivial]. Qed.

Lemma skip_ws_length (s : str) : (List.length (Json.skip_ws s) <= List.length s)%nat.
Proof.
  induction s as [|c s IH]; [reflexivity|]. cbn [Json.skip_ws].
  destruct (Json.is_ws c); cbn [List.length]; lia.
Qed.

Lemma scanstring_sound (n : nat) :
  forall s acc, (List.length s <= n)%nat ->
  scan_sound (S (List.length s)) (Some (Json.scanstring s acc)).
Proof.
  induction n as [|n IH]; intros s acc Hlen.
  - destruct s; [reflexivity | cbn in Hlen; lia].
  - destruct s as [|c s1]; [reflexivity|]. cbn [Json.scanstring].
    destruct (N.eqb c DQUOTE); [cbn; lia|].
    destruct (N.eqb c BACKSLASH).
    + destruct s1 as [|e s2]; [reflexivity|].
      destruct (N.eqb e 117).
      * destruct s2 as [|h1 [|h2 [|h3 [|h4 s3]]]]; try reflexivity.
        destruct (Json.hex4 h1 h2 h3 h4) as [u|]; [|reflexivity].
        assert (H3 : forall a, scan_sound
                       (S (List.length (c :: e :: h1 :: h2 :: h3 :: h4 :: s3)))
                       (Some (Json.scanstring s3 a))).
        { intros a. eapply scan_sound_le; [apply IH|]; cbn in *; lia. }
        destruct s3 as [|b [|e' [|g1 [|g2 [|g3 [|g4 s4]]]]]]; try apply H3.
        destruct (Json.is_high_surrogate u && N.eqb b BACKSLASH && N.eqb e' 117);
          [|apply H3].
        destruct (Json.hex4 g1 g2 g3 g4) as [u2|]; [|reflexivity].
        destruct (Json.is_low_surrogate u2); [|apply H3].
        eapply scan_sound_le; [apply IH|]; cbn in *; lia.
      * destruct (Json.simple_escape e); [|reflexivity].
        eapply scan_sound_le; [apply IH|]; cbn in *; lia.
    + destruct (c <=? 31)%N; [reflexivity|].
      eapply scan_sound_le; [apply IH|]; cbn in *; lia.
Qed.

Lemma scanstring_cases (s acc : str) :
  (exists x rest, Json.scanstring s acc = Ok (x, rest)
                  /\ (List.length rest < S (List.length s))%nat)
  \/ Json.scanstring s acc = Raise JSONDecodeError.
Proof.
  pose proof (scanstring_sound (List.length s) s acc (le_n _)) as H.
  destruct (Json.scanstring s acc) as [[x rest]|e]; cbn in H.
  - left. now exists x, rest.
  - right. now subst.
Qed.

Lemma span_digits_length (s ds rest : str) :
  Json.span_digits s = (ds, rest) -> (List.length rest <= List.length s)%nat.
Proof.
  revert ds rest; induction s as [|c s IH]; intros ds rest H; cbn [Json.span_digits] in H.
  - injection H as <- <-. reflexivity.
  - destruct (Json.isdigit c).
    + destruct (Json.span_digits s) as [ds' rest'] eqn:E. injection H as <- <-.
      specialize (IH _ _ eq_refl). cbn. lia.
    + injection H as <- <-. reflexivity.
Qed.

Lemma match_integer_length (s ip rest : str) :
  Json.match_integer s = Some (ip, rest) -> (List.length rest < List.length s)%nat.
Proof.
  unfold Json.match_integer. destruct s as [|c s]; [discriminate|].
  destruct (N.eqb c 48); [intros [= <- <-]; cbn; lia|].
  destruct (Json.isdigit c); [|discriminate].
  destruct (Json.span_digits s) as [ds r] eqn:E. intros [= <- <-].
  apply span_digits_length in E. cbn. lia.
Qed.

Lemma match_fraction_length (s ds rest : str) :
  Json.match_fraction s = Some (ds, rest) -> (List.length rest <= List.length s)%nat.
Proof.
  unfold Json.match_fraction. destruct s as [|p [|d s]]; try discriminate.
  destruct (N.eqb p 46 && Json.isdigit d); [|discriminate].
  destruct (Json.span_digits _) as [ds' r] eqn:E. intros [= <- <-].
  apply span_digits_length in E. cbn in *. lia.
Qed.

Lemma match_exponent_length (s rest : str) (x : Z) :
  Json.match_exponent s = Some (x, rest) -> (List.length rest <= List.length s)%nat.
Proof.
  unfold Json.match_exponent. destruct s as [|e s1]; [discriminate|].
  destruct (N.eqb e 101 || N.eqb e 69); [|discriminate].
  set (p := match s1 with
            | [] => (false, s1)
            | c :: r => if N.eqb c 45 then (true, r)
                        else if N.eqb c 43 then (false, r) else (false, s1)
            end).
  assert (Hp : (List.length (snd p) <= List.length s1)%nat).
  { subst p. destruct s1 as [|c r]; [reflexivity|].
    destruct (N.eqb c 45); [cbn; lia|]. destruct (N.eqb c 43); cbn; lia. }
  destruct p as [neg s2]. cbn [snd] in Hp.
  destruct (Json.span_digits s2) as [ds r] eqn:E.
  apply span_digits_length in E.
  destruct ds; [discriminate|]. intros [= <- <-]. cbn. lia.
Qed.

Lemma match_number_length (s rest : str) (v : value) :
  Json.match_number s = Some (v, rest) -> (List.length rest < List.length s)%nat.
Proof.
  unfold Json.match_number.
  set (p := match s with
            | [] => (false, s)
            | c :: r => if N.eqb c 45 then (true, r) else (false, s)
            end).
  assert (Hp : (List.length (snd p) <= List.length s)%nat).
  { subst p. destruct s as [|c r]; [reflexivity|]. destruct (N.eqb c 45); cbn; lia. }
  destruct p as [neg s1]. cbn [snd] in Hp.
  destruct (Json.match_integer s1) as [[ip s2]|] eqn:Ei; [|discriminate].
  apply match_integer_length in Ei.
  assert (Hf : (List.length (snd (match Json.match_fraction s2 with
                                  | Some (ds, r) => (Some ds, r)
                                  | None => (None, s2)
                                  end)) <= List.length s2)%nat).
  { destruct (Json.match_fraction s2) as [[ds r]|] eqn:Ef; cbn [snd]; [|lia].
    now apply match_fraction_length in Ef. }
  destruct (match Json.match_fraction s2 with
            | Some (ds, r) => (Some ds, r)
            | None => (None, s2)
            end) as [frac s3]. cbn [snd] in Hf.
  assert (He : (List.length (snd (match Json.match_exponent s3 with
                                  | Some (x, r) => (Some x, r)
                                  | None => (None, s3)
                                  end)) <= List.length s3)%nat).
  { destruct (Json.match_exponent s3) as [[x r]|] eqn:Ee; cbn [snd]; [|lia].
    now apply match_exponent_length in Ee. }
  destruct (match Json.match_exponent s3 with
            | Some (x, r) => (Some x, r)
            | None => (None, s3)
            end) as [ex s4]. cbn [snd] in He.
  destruct frac, ex; intros [= <- <-]; lia.
Qed.

Section Loops.

Variable scan_once : str -> Json.scan (value * str).
Variable bound : nat.
Hypothesis scan_once_sound :
  forall s, (List.length s < bound)%nat -> scan_sound (List.length s) (scan_once s).

Lemma parse_array_loop_sound (budget : nat) :
  forall s acc, (List.length s < bound)%nat -> (List.length s < budget)%nat ->
  scan_sound (List.length s) (Json.parse_array_loop scan_once budget s acc).
Proof.
  induction budget as [|budget IH]; intros s acc Hb Hlen; [lia|].
  cbn [Json.parse_array_loop].
  pose proof (scan_once_sound s Hb) as Hs.
  destruct (scan_once s) as [[[v rest]|e]|]; cbn in Hs; [|exact Hs|contradiction].
  pose proof (skip_ws_length rest) as Hw.
  destruct (Json.skip_ws rest) as [|c rest']; [reflexivity|]. cbn in Hw.
  destruct (N.eqb c 93); [cbn; lia|].
  destruct (N.eqb c COMMA); [|reflexivity].
  pose proof (skip_ws_length rest') as Hw'.
  eapply scan_sound_le; [apply IH|]; lia.
Qed.

Lemma parse_array_sound (budget : nat) (s : str) :
  (List.length s < bound)%nat -> (List.length s < budget)%nat ->
  scan_sound (S (List.length s)) (Json.parse_array scan_once budget s).
Proof.
  intros Hb Hlen. unfold Json.parse_array.
  pose proof (skip_ws_length s) as Hw.
  destruct (Json.skip_ws s) as [|c rest]; [reflexivity|].
  destruct (N.eqb c 93); [cbn in *; lia|].
  eapply scan_sound_le; [apply parse_array_loop_sound|]; lia.
Qed.

Lemma parse_object_loop_sound (budget : nat) :
  forall s acc, (List.length s < bound)%nat -> (List.length s < budget)%nat ->
  scan_sound (List.length s) (Json.parse_object_loop scan_once budget s acc).
Proof.
  induction budget as [|budget IH]; intros s acc Hb Hlen; [lia|].
  cbn [Json.parse_object_loop].
  destruct s as [|q s1]; [reflexivity|].
  destruct (N.eqb q DQUOTE); [|reflexivity].
  destruct (scanstring_cases s1 []) as [(key & s2 & -> & H2)| ->]; [|reflexivity].
  pose proof (skip_ws_length s2) as Hw2.
  destruct (Json.skip_ws s2) as [|c s3]; [reflexivity|]. cbn in Hw2.
  destruct (N.eqb c 58); [|reflexivity].
  pose proof (skip_ws_length s3) as Hw3.
  cbn [List.length] in Hb, Hlen.
  assert (Hb3 : (List.length (Json.skip_ws s3) < bound)%nat) by lia.
  pose proof (scan_once_sound _ Hb3) as Hs.
  destruct (scan_once (Json.skip_ws s3)) as [[[v s4]|e]|]; cbn in Hs;
    [|exact Hs|contradiction].
  pose proof (skip_ws_length s4) as Hw4.
  destruct (Json.skip_ws s4) as [|d s5]; [reflexivity|]. cbn in Hw4.
  destruct (N.eqb d 125); [cbn; lia|].
  destruct (N.eqb d COMMA); [|reflexivity].
  pose proof (skip_ws_length s5) as Hw5.
  eapply scan_sound_le; [apply IH|]; cbn [List.length]; lia.
Qed.

Lemma parse_object_sound (budget : nat) (s : str) :
  (List.length s < bound)%nat -> (List.length s < budget)%nat ->
  scan_sound (S (List.length s)) (Json.parse_object scan_once budget s).
Proof.
  intros Hb Hlen. unfold Json.parse_object.
  pose proof (skip_ws_length s) as Hw.
  destruct (Json.skip_ws s) as [|c rest]; [reflexivity|].
  destruct (N.eqb c 125); [cbn in *; lia|].
  eapply scan_sound_le; [apply parse_object_loop_sound|]; lia.
Qed.

End Loops.

Lemma scan_once_sound (budget : nat) :
  forall s, (List.length s < budget)%nat ->
  scan_sound (List.length s) (Json.scan_once budget s).
Proof.
  induction budget as [|budget IH]; intros s Hlen; [lia|].
  cbn [Json.scan_once].
  destruct s as [|c s']; [reflexivity|]. cbn [List.length] in Hlen.
  destruct (N.eqb c DQUOTE).
  { destruct (scanstring_cases s' []) as [(x & rest & -> & H)| ->]; [exact H | reflexivity]. }
  destruct (N.eqb c 123).
  { apply parse_object_sound with (bound := budget); [exact IH | lia | lia]. }
  destruct (N.eqb c 91).
  { apply parse_array_sound with (bound := budget); [exact IH | lia | lia]. }
  repeat match goal with
         | |- scan_sound _ (if startswith ?p ?t then _ else _) =>
             destruct (startswith p t);
             [cbn [scan_sound]; rewrite length_skipn; cbn [List.length]; lia|]
         end.
  destruct (Json.match_number (c :: s')) as [[v rest]|] eqn:E; [|reflexivity].
  apply match_number_length in E. exact E.
Qed.



(** ** The last character of the text *)

Lemma tight_app_r (a b : str) : tight b -> tight (a ++ b).
Proof. intros (front & c & -> & Hc). exists (a ++ front), c. now rewrite app_assoc. Qed.

Lemma tight_cons (c : char) (s : str) : tight s -> tight (c :: s).
Proof. apply (tight_app_r [c]). Qed.

Lemma tight_plain (s : str) : plain s -> s <> [] -> tight s.
Proof.
  intros Hp Hne. destruct (exists_last Hne) as (front & c & ->).
  exists front, c. split; [reflexivity|].
  apply Forall_app in Hp as [_ Hc]. now apply Forall_inv in Hc.
Qed.

Lemma tight_not_newline (s : str) : tight s -> ~ ends_with_newline s.
Proof.
  intros (front & c & -> & Hc) [front' E]. apply app_inj_tail in E as [_ ->].
  now apply Hc.
Qed.

Lemma empty_not_newline : ~ ends_with_newline [].
Proof. intros [front E]. now destruct front. Qed.

Lemma join_snoc (sep : str) (parts : list str) (p : str) :
  exists front, join sep (parts ++ [p]) = front ++ p.
Proof.
  induction parts as [|q parts (front & IH)]; [now exists []|].
  destruct parts as [|q' parts].
  - exists (q ++ sep). cbn. now rewrite <- app_assoc.
  - exists (q ++ sep ++ front). cbn [app join] in *. rewrite IH.
    now rewrite <- !app_assoc.
Qed.

Lemma join_app_r (sep : str) (l1 l2 : list str) :
  l2 <> [] -> exists front, join sep (l1 ++ l2) = front ++ join sep l2.
Proof.
  intros Hne. induction l1 as [|q l1 (front & IH)]; [now exists []|].
  destruct l1 as [|q' l1].
  - destruct l2 as [|p l2]; [contradiction|].
    exists (q ++ sep). cbn [app join]. now rewrite <- app_assoc.
  - exists (q ++ sep ++ front). cbn [app join] in *. rewrite IH.
    now rewrite <- !app_assoc.
Qed.

Lemma tight_join_last (sep : str) (lines : list str) :
  lines <> [] -> Forall tight lines -> tight (join sep lines).
Proof.
  intros Hne HF. destruct (exists_last Hne) as (front & l & ->).
  destruct (join_snoc sep front l) as [pre ->]. apply tight_app_r.
  apply Forall_app in HF as [_ HF]. now apply Forall_inv in HF.
Qed.

Lemma plain_lit_uint (d : Decimal.uint) : plain (lit (NilEmpty.string_of_uint d)).
Proof. induction d; cbn; constructor; (discriminate || assumption). Qed.

Lemma str_of_int_plain (n : Z) : plain (str_of_int n).
Proof.
  unfold str_of_int, NilZero.string_of_int.
  assert (H : forall d, plain (lit (NilZero.string_of_uint d))).
  { intros d. destruct d; try apply plain_lit_uint.
    cbn. constructor; [discriminate | constructor]. }
  destruct (Z.to_int n) as [d|d]; [apply H|].
  change (plain (45%N :: lit (NilZero.string_of_uint d))).
  constructor; [discriminate | apply H].
Qed.

Lemma str_of_int_nonempty (n : Z) : str_of_int n <> [].
Proof.
  unfold str_of_int, NilZero.string_of_int.
  destruct (Z.to_int n) as [d|d]; [|discriminate].
  destruct d; discriminate.
Qed.

Lemma str_of_int_tight (n : Z) : tight (str_of_int n).
Proof. apply tight_plain; [apply str_of_int_plain | apply str_of_int_nonempty]. Qed.

Lemma plain_app (a b : str) : plain a -> plain b -> plain (a ++ b).
Proof. intros Ha Hb. apply Forall_app. now split. Qed.

Lemma plain_strip_zeros (s : str) : plain s -> plain (strip_zeros s).
Proof.
  induction 1 as [|c s Hc Hs IH]; [constructor|].
  cbn [strip_zeros]. destruct (N.eqb c 48); [assumption | now constructor].
Qed.

Lemma plain_repeat (c : char) (n : nat) : c <> LF -> plain (List.repeat c n).
Proof. intros Hc. induction n; cbn; now constructor. Qed.

Lemma exponent_text_plain (x : Z) : plain (exponent_text x).
Proof.
  unfold exponent_text. apply plain_app.
  - destruct (x <? 0); (constructor; [discriminate | constructor]).
  - apply plain_app; [|apply str_of_int_plain].
    destruct (Z.abs x <? 10); [constructor; [discriminate | constructor] | constructor].
Qed.

Lemma format_repr_plain (ds : str) (decpt : Z) : plain ds -> plain (format_repr ds decpt).
Proof.
  intros Hp. unfold format_repr.
  destruct ((decpt <=? -4) || (16 <? decpt)).
  - assert (He : plain (lit "e" ++ exponent_text (decpt - 1))).
    { apply plain_app; [plain_lit | apply exponent_text_plain]. }
    destruct ds as [|c [|c' rest]]; [plain_lit | |].
    + apply Forall_inv in Hp. now constructor.
    + pose proof (Forall_inv Hp) as Hc. apply Forall_inv_tail in Hp.
      constructor; [assumption|].
      apply plain_app; [plain_lit|]. now apply plain_app.
  - destruct (decpt <=? 0).
    + apply plain_app; [plain_lit|].
      apply plain_app; [apply plain_repeat; discriminate | assumption].
    + destruct (Z.of_nat (List.length ds) <=? decpt).
      * apply plain_app; [assumption|].
        apply plain_app; [apply plain_repeat; discriminate | plain_lit].
      * rewrite <- (firstn_skipn (Z.to_nat decpt) ds) in Hp.
        apply Forall_app in Hp as [H1 H2].
        apply plain_app; [assumption|]. apply plain_app; [plain_lit | assumption].
Qed.

Lemma format_repr_nonempty (ds : str) (decpt : Z) : format_repr ds decpt <> [].
Proof.
  unfold format_repr.
  destruct ((decpt <=? -4) || (16 <? decpt)).
  - destruct ds as [|c [|c' rest]]; discriminate.
  - destruct (decpt <=? 0); [discriminate|].
    destruct (Z.of_nat (List.length ds) <=? decpt); intros E.
    + apply app_eq_nil in E as [_ E]. apply app_eq_nil in E as [_ E]. discriminate.
    + apply app_eq_nil in E as [_ E]. discriminate.
Qed.

Lemma digits_of_plain (m : positive) (e : Z) : plain (fst (digits_of m e)).
Proof.
  unfold digits_of.
  destruct (scale2 (Z.pos m) 1 (- e)) as [n d].
  destruct (shortest 16 1 (S754_finite false m e) n d (decimal_point n d)) as [c t].
  cbn [fst]. unfold plain. apply Forall_rev. apply plain_strip_zeros.
  apply Forall_rev. apply str_of_int_plain.
Qed.

Lemma float_repr_tight (f : pyfloat) : tight (float_repr f).
Proof.
  destruct f as [neg|neg| |neg m e]; cbn [float_repr].
  - apply tight_app_r. now exists (lit "0."), 48%N.
  - apply tight_app_r. now exists (lit "in"), 102%N.
  - now exists (lit "na"), 110%N.
  - pose proof (digits_of_plain m e) as Hp.
    destruct (digits_of m e) as [ds decpt]. cbn [fst] in Hp.
    apply tight_app_r, tight_plain;
      [now apply format_repr_plain | apply format_repr_nonempty].
Qed.

Lemma _quote_str_tight (s : str) : tight (_quote_str s).
Proof.
  unfold _quote_str. exists ([DQUOTE] ++ replace [DQUOTE] [BACKSLASH; DQUOTE] s), DQUOTE.
  split; [now rewrite <- app_assoc | discriminate].
Qed.

(** A formatted value is never empty and never ends with a newline. *)
Lemma _format_value_tight (v : value) : tight (_format_value v).
Proof.
  destruct v as [|b|n|f|s|elems|items]; cbn [_format_value];
    try apply _quote_str_tight.
  - now exists (lit "nul"), 108%N.
  - destruct b; [now exists (lit "tru"), 101%N | now exists (lit "fals"), 101%N].
  - apply str_of_int_tight.
  - apply float_repr_tight.
  - destruct (_needs_quote (VStr s)) eqn:Hq; [apply _quote_str_tight|].
    cbn [_needs_quote] in Hq. destruct s as [|c0 rest]; [discriminate|].
    destruct (isspace c0 || isspace (List.last (c0 :: rest) c0)) eqn:Hs; [discriminate|].
    apply orb_false_iff in Hs as [_ Hl].
    destruct (last_cons_exists c0 rest) as [front E].
    exists front, (List.last (c0 :: rest) c0). split; [exact E|].
    intros El. rewrite El in Hl. discriminate.
Qed.

Lemma Forall2_Forall_r {A B : Type} (R : A -> B -> Prop) (P : B -> Prop)
    (l : list A) (l' : list B) :
  Forall2 R l l' -> (forall a b, In a l -> R a b -> P b) -> Forall P l'.
Proof.
  induction 1 as [|a b l l' Hab _ IH]; intros H; constructor.
  - apply (H a b); [now left | assumption].
  - apply IH. intros a' b' Hin. apply H. now right.
Qed.

Lemma Forall2_nonempty {A B : Type} (R : A -> B -> Prop) (l : list A) (l' : list B) :
  Forall2 R l l' -> l <> [] -> l' <> [].
Proof. destruct 1; [contradiction | discriminate]. Qed.

Lemma table_rows_tight (pad : str) (cols : list str) (lst : list value) (rows : list str) :
  cols <> [] -> table_rows pad cols lst = Ok rows -> Forall tight rows.
Proof.
  intros Hc H. apply mapM_inv in H.
  apply (Forall2_Forall_r _ _ _ _ H). intros item row _ Hrow.
  destruct (mapM _ cols) as [row_vals|] eqn:Hv; [|discriminate].
  cbn [bind] in Hrow. injection Hrow as <-.
  apply mapM_inv in Hv. apply tight_app_r, tight_join_last.
  - exact (Forall2_nonempty _ _ _ Hv Hc).
  - apply (Forall2_Forall_r _ _ _ _ Hv). intros c val _ Hval.
    destruct (getitem item c) as [x|]; [|discriminate].
    injection Hval as <-. apply _format_value_tight.
Qed.

Lemma tight_colon (s : str) : tight (s ++ lit ":").
Proof. apply tight_app_r. now exists [], 58%N. Qed.

Lemma array_lines_nonempty (indent : Z) (key : str) (lst : list value) (lines : list str) :
  array_lines indent key lst = Ok lines -> lines <> [].
Proof.
  unfold array_lines. destruct (_all_dicts_with_same_keys lst) as [sc|]; [|discriminate].
  cbn [bind]. destruct (fst sc).
  - destruct (table_rows _ _ _); [|discriminate]. now intros [= <-].
  - destruct (forallb _is_primitive lst); [now intros [= <-]|].
    destruct (mapM _ _); [|discriminate]. now intros [= <-].
Qed.

Lemma array_lines_tight (indent : Z) (key : str) (lst : list value) (lines : list str) :
  lst <> [] ->
  List.forallb (fun el => negb (is_empty_dict el) && no_empty_child el) lst = true ->
  Forall ends_well lst ->
  array_lines indent key lst = Ok lines -> Forall tight lines.
Proof.
  intros Hne Hchild IH. unfold array_lines.
  destruct (schema_total lst) as (b & cols & Hsc). rewrite Hsc. cbn [bind fst snd].
  rewrite forallb_forall in Hchild. destruct b.
  - apply schema_inv in Hsc as [_ HF].
    destruct (table_rows _ cols lst) as [rows|] eqn:Hrows; [|discriminate].
    cbn [bind]. intros [= <-]. constructor.
    + unfold table_header. rewrite !app_assoc. apply tight_colon.
    + apply (table_rows_tight _ _ _ _) in Hrows; [assumption|].
      destruct lst as [|el lst]; [contradiction|].
      apply Forall_inv in HF as (items & -> & <-).
      specialize (Hchild _ (or_introl eq_refl)).
      destruct items; [discriminate | discriminate].
  - destruct (forallb _is_primitive lst).
    + intros [= <-]. constructor; [|constructor].
      unfold inline_line. do 5 apply tight_app_r. apply tight_join_last.
      * destruct lst; [contradiction | discriminate].
      * apply Forall_map, Forall_forall. intros el _. apply _format_value_tight.
    + destruct (mapM (block_line indent) lst) as [block|] eqn:Hblock; [|discriminate].
      cbn [bind]. intros [= <-]. constructor.
      * unfold block_header. rewrite !app_assoc.
        apply tight_app_r. now exists (lit "]"), 58%N.
      * apply mapM_inv in Hblock.
        apply (Forall2_Forall_r _ _ _ _ Hblock). intros el line Hin Hline.
        unfold block_line in Hline. destruct (_is_primitive el).
        -- injection Hline as <-. apply tight_app_r, _format_value_tight.
        -- specialize (Hchild _ Hin). apply andb_true_iff in Hchild as [Hd Hc].
           rewrite Forall_forall in IH.
           destruct (IH el Hin Hc _ _ _ Hline) as [[-> _]|Ht]; [discriminate | exact Ht].
Qed.

Lemma item_lines_tight (indent : Z) (kv : str * value) (lines : list str) :
  negb (is_empty_dict (snd kv)) && no_empty_child (snd kv) = true ->
  ends_well (snd kv) ->
  item_lines indent kv = Ok lines ->
  lines <> [] /\ tight (join [LF] lines).
Proof.
  destruct kv as [k v]. cbn [snd]. intros Hchild IH. unfold item_lines. cbn [fst snd].
  apply andb_true_iff in Hchild as [Hd Hc].
  assert (Hprim : forall x,
            Ok [spaces indent ++ k ++ lit ": " ++ _format_value x] = Ok lines ->
            lines <> [] /\ tight (join [LF] lines)).
  { intros x E. assert (E' : lines = [spaces indent ++ k ++ lit ": " ++ _format_value x])
      by congruence.
    rewrite E'. split; [discriminate|]. cbn [join].
    do 3 apply tight_app_r. apply _format_value_tight. }
  destruct v as [|b|n|f|s|lst|d]; try apply Hprim.
  - destruct lst as [|el lst].
    + intros [= <-]. split; [discriminate|]. cbn [join]. rewrite !app_assoc.
      apply tight_app_r. now exists (lit "[0]"), 58%N.
    + intros H. split; [now apply array_lines_nonempty in H|].
      destruct (IH Hc (Some k) indent (join [LF] lines)) as [[E _]|Ht];
        [|discriminate|exact Ht].
      rewrite json_to_toon_list, name_part_Some, H. reflexivity.
  - destruct (json_to_toon (VDict d) None (indent + 2)) as [sub|] eqn:Hsub; [|discriminate].
    cbn [bind]. intros [= <-]. split; [discriminate|]. cbn [join].
    do 2 apply tight_app_r.
    destruct (IH Hc _ _ _ Hsub) as [[E _]|Ht]; [|exact Ht].
    injection E as ->. discriminate.
Qed.

Lemma concat_groups_tight (out : list (list str)) :
  out <> [] ->
  Forall (fun g => g <> [] /\ tight (join [LF] g)) out ->
  tight (join [LF] (List.concat out)).
Proof.
  intros Hne HF. destruct (exists_last Hne) as (front & g & ->).
  apply Forall_app in HF as [_ HF]. apply Forall_inv in HF as [Hg Ht].
  rewrite concat_app. cbn [List.concat]. rewrite app_nil_r.
  destruct (join_app_r [LF] (List.concat front) g Hg) as [pre ->].
  now apply tight_app_r.
Qed.

Lemma json_to_toon_primitive (v : value) (name : option str) (indent : Z) :
  _is_primitive v = true ->
  exists prefix, json_to_toon v name indent = Ok (prefix ++ _format_value v).
Proof.
  intros Hp.
  destruct v; try discriminate; destruct name as [[|c n']|];
    first [ now exists (spaces indent)
          | exists (spaces indent ++ (c :: n') ++ lit ": ");
            cbn [json_to_toon _is_primitive]; now rewrite <- !app_assoc ].
Qed.

Lemma json_to_toon_ends_well (v : value) : ends_well v.
Proof.
  induction v as [| b | n | f | s | elems IH | items IH] using value_ind;
    intros Hc name indent out H.
  1-5: right;
       match type of H with
       | json_to_toon ?v _ _ = _ =>
           destruct (json_to_toon_primitive v name indent eq_refl) as [prefix E];
           replace out with (prefix ++ _format_value v) by congruence
       end;
       apply tight_app_r, _format_value_tight.
  - right. destruct elems as [|el lst].
    + cbn in H. injection H as <-. rewrite !app_assoc.
      apply tight_app_r. now exists (lit "[0]"), 58%N.
    + rewrite json_to_toon_list in H.
      destruct (array_lines indent (name_part name) (el :: lst)) as [lines|] eqn:Hl;
        [|discriminate].
      injection H as <-. apply tight_join_last.
      * now apply array_lines_nonempty in Hl.
      * apply (array_lines_tight _ _ _ _) in Hl; [assumption | discriminate | exact Hc | exact IH].
  - destruct items as [|kv items]; [left; cbn in H; now injection H as <-|].
    right. rewrite json_to_toon_dict in H.
    destruct (mapM (item_lines indent) (kv :: items)) as [groups|] eqn:Hg; [|discriminate].
    injection H as <-. apply mapM_inv in Hg. apply concat_groups_tight.
    + apply (Forall2_nonempty _ _ _ Hg). discriminate.
    + cbn [no_empty_child] in Hc. rewrite forallb_forall in Hc.
      rewrite Forall_forall in IH.
      apply (Forall2_Forall_r _ _ _ _ Hg). intros kv' g Hin Hlines.
      apply (item_lines_tight indent kv' g); [now apply Hc | now apply IH | assumption].
Qed.

(** ** Trailing newline *)

(** C5, as stated, fails: the well-formed object [{"a": {}}] encodes to
    [a:] followed by a newline, the empty text of the nested empty object
    being joined as a last, empty line. *)
Lemma trailing_newline_counterexample :
  ~ (forall v name indent s,
        well_formed v = true -> json_to_toon v name indent = Ok s ->
        ~ ends_with_newline s).
Proof.
  intros H.
  apply (H (VDict [(lit "a", VDict [])]) None 0 (lit "a:" ++ [LF]) eq_refl eq_refl).
  now exists (lit "a:").
Qed.

(** C5, amended.  The text of an object is the items' lines joined by
    newlines, and the text of a non-empty array is its lines joined by
    newlines; when no field and no element of the value, at any depth, is
    an empty object, the text does not end with a newline. *)
Theorem no_trailing_newline :
  (forall items name indent,
      json_to_toon (VDict items) name indent
      = (out_lines <- mapM (item_lines indent) items ;;
         Ok (join [LF] (List.concat out_lines))))
  /\ (forall el lst name indent,
         json_to_toon (VList (el :: lst)) name indent
         = (lines <- array_lines indent (name_part name) (el :: lst) ;;
            Ok (join [LF] lines)))
  /\ (forall v name indent s,
         no_empty_child v = true -> json_to_toon v name indent = Ok s ->
         ~ ends_with_newline s).
Proof.
  split; [exact json_to_toon_dict|]. split; [exact json_to_toon_list|].
  intros v name indent s Hc H.
  destruct (json_to_toon_ends_well v Hc name indent s H) as [[_ ->]|Ht].
  - apply empty_not_newline.
  - now apply tight_not_newline.
Qed.

(** The text of the end-to-end example does not end with a newline. *)
Lemma no_trailing_newline_witness : ~ ends_with_newline example_toon.
Proof.
  exact (proj2 (proj2 no_trailing_newline) example_value None 0 example_toon
           eq_refl eq_refl).
Defined.

(** ** Text arguments *)


Lemma convert_text (s : str) :
  convert_json_to_toon (VStr s) = (parsed <- Json.loads s ;; json_to_toon parsed None 0).
Proof. reflexivity. Qed.




(** C10. A string argument is always parsed: the result on a string is
    the encoding of what [json.loads] returns for it, and the error of
    [json.loads] when it raises; so the plain string [hello], which
    [json_to_toon] would encode as the scalar [hello], makes
    [convert_json_to_toon] raise [JSONDecodeError]. *)
Theorem string_argument_is_parsed :
  (forall s, convert_json_to_toon (VStr s)
             = (parsed <- Json.loads s ;; json_to_toon parsed None 0))
  /\ (forall s e, Json.loads s = Raise e -> convert_json_to_toon (VStr s) = Raise e)
  /\ Json.loads (lit "hello") = Raise JSONDecodeError
  /\ convert_json_to_toon (VStr (lit "hello")) = Raise JSONDecodeError
  /\ json_to_toon (VStr (lit "hello")) None 0 = Ok (lit "hello").
Proof.
  split; [exact convert_text|]. split; [|repeat split].
  intros s e H. now rewrite convert_text, H.
Qed.

(** The plain string [hello] is not JSON, and the error of [json.loads]
    is the result. *)
Lemma string_argument_is_parsed_witness :
  convert_json_to_toon (VStr (lit "hello")) = Raise JSONDecodeError.
Proof.
  exact (proj1 (proj2 string_argument_is_parsed) (lit "hello") JSONDecodeError eq_refl).
Defined.

(** ** Key order *)



(** *** Objects below the top of the value *)









(** ** More on the encoder *)

(** *** Names *)

Lemma join_one (sep : str) (lines : list str) :
  join sep (List.concat [lines]) = join sep lines.
Proof. cbn [List.concat]. now rewrite app_nil_r. Qed.

(** A one-field object encodes like the value of the field under the name
    of the key, when the value is an array, or a primitive under a key
    that is not empty: the two copies of the array cases in
    [json_to_toon] agree. *)
Theorem field_as_named_value (k : str) (v : value) (name : option str) (indent : Z) :
  is_dict v = false -> (_is_primitive v = true -> k <> []) ->
  json_to_toon (VDict [(k, v)]) name indent = json_to_toon v (Some k) indent.
Proof.
  intros Hd Hk. rewrite json_to_toon_dict. cbn [mapM].
  destruct v as [|b|n|f|s|lst|d]; try discriminate.
  1-5: destruct k as [|c k']; [now specialize (Hk eq_refl)|]; reflexivity.
  destruct lst as [|el lst].
  - cbn. now destruct k.
  - rewrite json_to_toon_list, name_part_Some, item_lines_array by discriminate.
    destruct (array_lines indent k (el :: lst)) as [lines|]; [|reflexivity].
    cbn [bind]. now rewrite join_one.
Qed.

Lemma field_as_named_value_witness :
  json_to_toon (VDict [(lit "tags", VList [VStr (lit "x"); VStr (lit "y")])]) None 0
  = json_to_toon (VList [VStr (lit "x"); VStr (lit "y")]) (Some (lit "tags")) 0.
Proof.
  apply field_as_named_value; [reflexivity | discriminate].
Defined.

(** An empty name is no name; the name of an object is ignored, so that a
    named object gets no [KEY:] line; and under the empty key a primitive
    field still gets its colon, which the empty name does not give. *)
Theorem name_edge_cases :
  (forall v indent, json_to_toon v (Some []) indent = json_to_toon v None indent)
  /\ (forall items name indent,
         json_to_toon (VDict items) name indent = json_to_toon (VDict items) None indent)
  /\ (forall v indent,
         _is_primitive v = true ->
         json_to_toon (VDict [([], v)]) None indent
         = Ok (spaces indent ++ lit ": " ++ _format_value v)
         /\ json_to_toon v (Some []) indent = Ok (spaces indent ++ _format_value v)).
Proof.
  split; [|split].
  - intros v indent. destruct v; reflexivity.
  - intros items name indent. now rewrite !json_to_toon_dict.
  - intros v indent Hp. destruct v; try discriminate; split; reflexivity.
Qed.

(** *** Scalars and delimiters *)

Lemma is_num_char_cases (c : char) :
  is_num_char c = true ->
  In c [48; 49; 50; 51; 52; 53; 54; 55; 56; 57; 45; 43; 46; 101; 105; 110; 102; 97]%N.
Proof.
  unfold is_num_char, Json.isdigit. intros H.
  apply orb_true_iff in H as [H|H].
  - apply andb_true_iff in H as [H1 H2].
    apply N.leb_le in H1, H2.
    assert (E : (c = 48 \/ c = 49 \/ c = 50 \/ c = 51 \/ c = 52 \/ c = 53 \/ c = 54
                 \/ c = 55 \/ c = 56 \/ c = 57)%N) by lia.
    cbn [In]. intuition auto.
  - apply existsb_exists in H as (x & Hin & Hx). apply N.eqb_eq in Hx. subst x.
    cbn [In] in *. intuition auto.
Qed.

Lemma num_char_plain (c : char) :
  is_num_char c = true ->
  isspace c = false /\ c <> COMMA /\ c <> CR /\ c <> LF /\ c <> DQUOTE.
Proof.
  intros H. apply is_num_char_cases in H. cbn [In] in H.
  repeat (destruct H as [<-|H]; [repeat split; discriminate|]). contradiction.
Qed.

Lemma num_chars_uint (d : Decimal.uint) :
  Forall (fun c => is_num_char c = true) (lit (NilEmpty.string_of_uint d)).
Proof. induction d; cbn; constructor; (reflexivity || assumption). Qed.

Lemma num_chars_int (n : Z) : Forall (fun c => is_num_char c = true) (str_of_int n).
Proof.
  unfold str_of_int, NilZero.string_of_int.
  assert (H : forall d, Forall (fun c => is_num_char c = true)
                          (lit (NilZero.string_of_uint d))).
  { intros d. destruct d; try apply num_chars_uint. cbn. now constructor. }
  destruct (Z.to_int n) as [d|d]; [apply H|].
  change (Forall (fun c => is_num_char c = true) (45%N :: lit (NilZero.string_of_uint d))).
  constructor; [reflexivity | apply H].
Qed.

Lemma num_chars_exponent (x : Z) : Forall (fun c => is_num_char c = true) (exponent_text x).
Proof.
  unfold exponent_text. apply Forall_app. split.
  - destruct (x <? 0); num_lit.
  - apply Forall_app. split; [|apply num_chars_int].
    destruct (Z.abs x <? 10); num_lit.
Qed.

Lemma num_chars_format (ds : str) (decpt : Z) :
  Forall (fun c => is_num_char c = true) ds ->
  Forall (fun c => is_num_char c = true) (format_repr ds decpt).
Proof.
  intros Hp. unfold format_repr.
  destruct ((decpt <=? -4) || (16 <? decpt)).
  - assert (He : Forall (fun c => is_num_char c = true)
                        (lit "e" ++ exponent_text (decpt - 1))).
    { apply Forall_app. split; [num_lit | apply num_chars_exponent]. }
    destruct ds as [|c [|c' rest]]; [num_lit | |].
    + apply Forall_inv in Hp. now constructor.
    + pose proof (Forall_inv Hp) as Hc. apply Forall_inv_tail in Hp.
      constructor; [assumption|].
      apply Forall_app. split; [num_lit|]. apply Forall_app. now split.
  - destruct (decpt <=? 0).
    + apply Forall_app. split; [num_lit|]. apply Forall_app. split; [|assumption].
      apply Forall_forall. intros c Hc. now apply repeat_spec in Hc as ->.
    + destruct (Z.of_nat (List.length ds) <=? decpt).
      * apply Forall_app. split; [assumption|]. apply Forall_app. split; [|num_lit].
        apply Forall_forall. intros c Hc. now apply repeat_spec in Hc as ->.
      * rewrite <- (firstn_skipn (Z.to_nat decpt) ds) in Hp.
        apply Forall_app in Hp as [H1 H2].
        apply Forall_app. split; [assumption|]. apply Forall_app. split; [num_lit | assumption].
Qed.

Lemma num_chars_strip (s : str) :
  Forall (fun c => is_num_char c = true) s ->
  Forall (fun c => is_num_char c = true) (strip_zeros s).
Proof.
  induction 1 as [|c s Hc Hs IH]; [constructor|].
  cbn [strip_zeros]. destruct (N.eqb c 48); [assumption | now constructor].
Qed.

Lemma num_chars_float (f : pyfloat) : Forall (fun c => is_num_char c = true) (float_repr f).
Proof.
  destruct f as [neg|neg| |neg m e]; cbn [float_repr].
  - destruct neg; num_lit.
  - destruct neg; num_lit.
  - num_lit.
  - unfold digits_of.
    destruct (scale2 (Z.pos m) 1 (- e)) as [n d].
    destruct (shortest 16 1 (S754_finite false m e) n d (decimal_point n d)) as [c t].
    apply Forall_app. split; [destruct neg; num_lit|].
    apply num_chars_format, Forall_rev, num_chars_strip, Forall_rev, num_chars_int.
Qed.

(** A text of number characters that is not empty needs no quoting. *)
Lemma num_text_unquoted (t : str) :
  t <> [] -> Forall (fun c => is_num_char c = true) t -> _needs_quote (VStr t) = false.
Proof.
  intros Hne HF.
  destruct (_needs_quote (VStr t)) eqn:Hq; [|reflexivity]. exfalso.
  apply _needs_quote_rule in Hq. rewrite Forall_forall in HF.
  assert (Hc : forall c, In c t ->
             isspace c = false /\ c <> COMMA /\ c <> CR /\ c <> LF /\ c <> DQUOTE).
  { intros c Hin. now apply num_char_plain, HF. }
  destruct Hq as [E|[(c & rest & -> & Hs)|[(front & c & -> & Hs)|[H|[H|[H|H]]]]]].
  - contradiction.
  - destruct (Hc c (or_introl eq_refl)) as [Hs' _]. congruence.
  - destruct (Hc c) as [Hs' _]; [apply in_or_app; right; now left | congruence].
  - now apply Hc in H.
  - now apply Hc in H.
  - now apply Hc in H.
  - now apply Hc in H.
Qed.

Lemma float_repr_nonempty (f : pyfloat) : float_repr f <> [].
Proof. destruct (float_repr_tight f) as (front & c & -> & _). now destruct front. Qed.

(** Delimiter safety: the text of a formatted value is either wrapped in
    double quotes, each double quote inside escaped, or it is free of what
    the rows are made of: it is not empty, has no whitespace at either
    end, and no comma, carriage return, line feed or double quote. *)
Theorem scalar_delimiter_safe (v : value) :
  (exists s, _format_value v = [DQUOTE] ++ escape_quotes s ++ [DQUOTE])
  \/ ~ needs_quoting_rule (_format_value v).
Proof.
  assert (Hno : forall t, _needs_quote (VStr t) = false -> ~ needs_quoting_rule t).
  { intros t Ht Hr. apply _needs_quote_rule in Hr. congruence. }
  destruct v as [|b|n|f|s|lst|d]; cbn [_format_value].
  - right. now apply Hno.
  - right. destruct b; now apply Hno.
  - right. apply Hno, num_text_unquoted; [apply str_of_int_nonempty | apply num_chars_int].
  - right. apply Hno, num_text_unquoted; [apply float_repr_nonempty | apply num_chars_float].
  - destruct (_needs_quote (VStr s)) eqn:Hq.
    + left. exists s. apply _quote_str_spec.
    + right. now apply Hno.
  - left. eexists. apply _quote_str_spec.
  - left. eexists. apply _quote_str_spec.
Qed.

(** The encoding keeps no trace of the type of a scalar: a string that
    spells an integer, a float, [null], [true] or [false] is formatted
    like that integer, float, [None] or boolean, so the two objects
    [{k: "5"}] and [{k: 5}] have the same text. *)
Theorem scalar_type_is_lost :
  (forall n, _format_value (VStr (str_of_int n)) = _format_value (VInt n))
  /\ (forall f, _format_value (VStr (float_repr f)) = _format_value (VFloat f))
  /\ _format_value (VStr (lit "null")) = _format_value VNone
  /\ (forall b : bool, _format_value (VStr (if b then lit "true" else lit "false"))
                = _format_value (VBool b))
  /\ (forall k n name indent,
         json_to_toon (VDict [(k, VStr (str_of_int n))]) name indent
         = json_to_toon (VDict [(k, VInt n)]) name indent).
Proof.
  assert (Hint : forall n, _format_value (VStr (str_of_int n)) = _format_value (VInt n)).
  { intros n. cbn [_format_value].
    now rewrite num_text_unquoted by (apply str_of_int_nonempty || apply num_chars_int). }
  split; [exact Hint|]. split; [|split; [reflexivity|split]].
  - intros f. cbn [_format_value].
    now rewrite num_text_unquoted by (apply float_repr_nonempty || apply num_chars_float).
  - now intros [].
  - intros k n name indent. rewrite !json_to_toon_dict. cbn [mapM].
    unfold item_lines. cbn [fst snd]. now rewrite Hint.
Qed.

(** ** Schema detection and the cells of strings *)

(** [_all_dicts_with_same_keys] never raises and decides whether an
    array is tabular: it answers [(True, cols)] exactly when the array is
    not empty and every element is an object whose keys are [cols] in
    that very order, and [(False, [])] in every other case. *)
Theorem schema_detection (lst : list value) :
  (exists cols, tabular lst cols /\ _all_dicts_with_same_keys lst = Ok (true, cols))
  \/ ((forall cols, ~ tabular lst cols) /\ _all_dicts_with_same_keys lst = Ok (false, [])).
Proof.
  destruct (schema_total lst) as (b & cols & E). destruct b.
  - left. exists cols. split; [now apply schema_inv | exact E].
  - right. rewrite (schema_none lst false cols E eq_refl) in E. split; [|exact E].
    intros cols' Ht. apply schema_tabular in Ht. congruence.
Qed.

Lemma escape_quotes_head (s : str) : forall rest, escape_quotes s <> DQUOTE :: rest.
Proof.
  destruct s as [|c s]; intros rest; [discriminate|]. cbn [escape_quotes flat_map].
  destruct (N.eqb_spec c DQUOTE) as [->|H]; [discriminate|].
  cbn [app]. intros [= E _]. contradiction.
Qed.

(** Escaping loses nothing: a quote of the escaped text always comes
    after the backslash put before it. *)
Lemma escape_quotes_injective (s : str) :
  forall t, escape_quotes s = escape_quotes t -> s = t.
Proof.
  induction s as [|c s IH]; intros [|d t] H.
  - reflexivity.
  - exfalso. cbn [escape_quotes flat_map] in H. destruct (N.eqb d DQUOTE); discriminate.
  - exfalso. cbn [escape_quotes flat_map] in H. destruct (N.eqb c DQUOTE); discriminate.
  - change (escape_quotes (c :: s))
      with ((if N.eqb c DQUOTE then [BACKSLASH; DQUOTE] else [c]) ++ escape_quotes s) in H.
    change (escape_quotes (d :: t))
      with ((if N.eqb d DQUOTE then [BACKSLASH; DQUOTE] else [d]) ++ escape_quotes t) in H.
    destruct (N.eqb_spec c DQUOTE) as [->|Hc], (N.eqb_spec d DQUOTE) as [->|Hd];
      cbn [app] in H.
    + injection H as H. f_equal. now apply IH.
    + exfalso. injection H as _ H. symmetry in H. now apply escape_quotes_head in H.
    + exfalso. injection H as _ H. now apply escape_quotes_head in H.
    + injection H as -> H. f_equal. now apply IH.
Qed.

Lemma _quote_str_needs_quote (s : str) : _needs_quote (VStr (_quote_str s)) = true.
Proof.
  apply _needs_quote_rule. rewrite _quote_str_spec. do 6 right. now left.
Qed.

(** Two strings are never rendered alike: the text [_format_value] gives
    for a string, quoted or not, determines the string. *)
Theorem strings_render_apart (s t : str) :
  _format_value (VStr s) = _format_value (VStr t) -> s = t.
Proof.
  cbn [_format_value].
  destruct (_needs_quote (VStr s)) eqn:Hs, (_needs_quote (VStr t)) eqn:Ht; intros H.
  - rewrite !_quote_str_spec in H. apply app_inv_head in H. apply app_inv_tail in H.
    now apply escape_quotes_injective.
  - rewrite <- H, _quote_str_needs_quote in Ht. discriminate.
  - rewrite H, _quote_str_needs_quote in Hs. discriminate.
  - exact H.
Qed.

Lemma strings_render_apart_witness : lit "a,b" = lit "a,b".
Proof. exact (strings_render_apart (lit "a,b") (lit "a,b") eq_refl). Defined.

(** ** The context of a query *)







(** ** The documents of the QnA index *)

(** A text that starts with [Q] is not JSON. *)
Lemma loads_Q (tail : str) : Json.loads (81%N :: tail) = Raise JSONDecodeError.
Proof. reflexivity. Qed.

Lemma qna_document_text (py_repr : value -> str) (id : str) (source q a : value) :
  Json.loads (page_content (qna_document py_repr id source q a)) = Raise JSONDecodeError.
Proof. apply loads_Q. Qed.

Lemma qna_items_docs (py_repr : value -> str) (uuid : nat -> str) (chunk : Document)
    (queries : list value) :
  forall next docs,
    qna_items py_repr uuid chunk next queries = Ok docs ->
    Forall (fun d => exists id source q a, d = qna_document py_repr id source q a) docs.
Proof.
  induction queries as [|query rest IH]; intros next docs H; cbn [qna_items] in H.
  - injection H as <-. constructor.
  - destruct (getitem query (lit "Q")) as [q|]; [|discriminate].
    destruct (getitem query (lit "A")) as [a|]; [|discriminate].
    destruct (getitem (VDict (metadata chunk)) (lit "source")) as [src|]; [|discriminate].
    cbn [bind] in H.
    destruct (qna_items py_repr uuid chunk (S next) rest) as [ds|] eqn:E; [|discriminate].
    injection H as <-. constructor; [now eexists _, _, _, _ | now apply (IH (S next))].
Qed.

Lemma qna_response_docs (py_repr : value -> str) (uuid : nat -> str) (chunk : Document)
    (next : nat) (content : str) (docs : list Document) :
  qna_response py_repr uuid chunk next content = Ok docs ->
  Forall (fun d => exists id source q a, d = qna_document py_repr id source q a) docs.
Proof.
  unfold qna_response, qna_parse.
  destruct (Json.loads content) as [queries|e]; cbn [bind].
  - destruct (getitem queries (lit "items")) as [items|e]; cbn [bind];
      [|destruct e; try discriminate; intros [= <-]; constructor].
    destruct (iterate items) as [elems|e]; cbn [bind];
      [|destruct e; try discriminate; intros [= <-]; constructor].
    destruct (qna_items py_repr uuid chunk next elems) as [ds|e] eqn:E.
    + intros [= <-]. now apply qna_items_docs in E.
    + destruct e; try discriminate. intros [= <-]. constructor.
  - destruct e; try discriminate. intros [= <-]. constructor.
Qed.

Lemma qna_loop_docs (py_repr : value -> str) (uuid : nat -> str) (respond : nat -> str)
    (chunk_docs : list Document) :
  forall i next trace docs,
    qna_loop (qna_response py_repr uuid) respond i chunk_docs next = Ok (trace, docs) ->
    Forall (fun d => exists id source q a, d = qna_document py_repr id source q a) docs.
Proof.
  induction chunk_docs as [|chunk rest IH]; intros i next trace docs H; cbn [qna_loop] in H.
  - injection H as <- <-. constructor.
  - destruct (qna_response py_repr uuid chunk next (respond i)) as [ds|] eqn:E; [|discriminate].
    cbn [bind] in H.
    destruct (qna_loop _ respond (S i) rest _) as [[tr more]|] eqn:El; [|discriminate].
    injection H as <- <-. apply Forall_app. split.
    + now apply qna_response_docs in E.
    + now apply IH in El.
Qed.

(** The documents [create_qna_index] hands to the vector store have the
    text [Question: ... Answer: ...], which is not JSON: when the results
    of a query are such documents, and there is one at least, putting the
    context together in [app.py] raises [JSONDecodeError]. *)
Theorem qna_results_break_context (py_repr : value -> str) (uuid : nat -> str)
    (respond : nat -> str) (chunk_docs : list Document)
    (trace : list event) (docs results : list Document) :
  create_qna_index py_repr uuid respond chunk_docs = Ok (trace, docs) ->
  results <> [] -> incl results docs ->
  app_context results = Raise JSONDecodeError.
Proof.
  intros H Hne Hincl. apply qna_loop_docs in H. rewrite Forall_forall in H.
  destruct results as [|res rest]; [contradiction|].
  destruct (H res (Hincl res (or_introl eq_refl))) as (id & source & q & a & ->).
  unfold app_context. cbn [List.map build_context].
  now rewrite convert_text, qna_document_text.
Qed.

Lemma qna_results_break_context_witness :
  app_context
    [qna_document (fun _ => []) (lit "u0") (VStr (lit "page")) (VStr (lit "q")) (VStr (lit "a"))]
  = Raise JSONDecodeError.
Proof.
  eapply (qna_results_break_context (fun _ => []) (fun _ => lit "u0")
            (fun _ => json_text "{'items': [{'Q': 'q', 'A': 'a'}]}")
            [{| page_content := lit "chunk";
                metadata := [(lit "source", VStr (lit "page"))] |}]);
    [reflexivity | discriminate | apply incl_refl].
Defined.

(** ** The answers of the language model *)







(** ** The pauses of the loop over the chunks *)






(** ** Round trip through JSON text *)

(** *** String literals *)

Lemma hex_value_digit (d : N) : (d < 16)%N -> Json.hex_value (Json.hex_digit d) = Some d.
Proof.
  intros H. unfold Json.hex_digit, Json.hex_value.
  destruct (N.ltb_spec d 10).
  - replace ((48 <=? 48 + d) && (48 + d <=? 57))%N with true.
    + f_equal. lia.
    + symmetry. apply andb_true_iff. split; apply N.leb_le; lia.
  - replace ((48 <=? 87 + d) && (87 + d <=? 57))%N with false.
    + replace ((97 <=? 87 + d) && (87 + d <=? 102))%N with true.
      * f_equal. lia.
      * symmetry. apply andb_true_iff. split; apply N.leb_le; lia.
    + symmetry. apply andb_false_iff. right. apply N.leb_gt. lia.
Qed.

Lemma hex_digits_bound (n : N) :
  (n / 4096 mod 16 < 16 /\ n / 256 mod 16 < 16 /\ n / 16 mod 16 < 16 /\ n mod 16 < 16)%N.
Proof. zify. Z.to_euclidean_division_equations. lia. Qed.

Lemma hex_recompose (n : N) :
  (n < 65536)%N ->
  ((((n / 4096 mod 16) * 16 + n / 256 mod 16) * 16 + n / 16 mod 16) * 16 + n mod 16 = n)%N.
Proof. intros. zify. Z.to_euclidean_division_equations. lia. Qed.

Lemma hex4_escape (n : N) :
  (n < 65536)%N ->
  Json.hex4 (Json.hex_digit (n / 4096 mod 16)) (Json.hex_digit (n / 256 mod 16))
            (Json.hex_digit (n / 16 mod 16)) (Json.hex_digit (n mod 16)) = Some n.
Proof.
  intros H. unfold Json.hex4.
  destruct (hex_digits_bound n) as (H1 & H2 & H3 & H4).
  rewrite !hex_value_digit by assumption.
  f_equal. now apply hex_recompose.
Qed.

(** What [scanstring] does at an escape [\uXXXX]. *)
Lemma scanstring_u (h1 h2 h3 h4 : char) (s3 acc : str) :
  Json.scanstring (92 :: 117 :: h1 :: h2 :: h3 :: h4 :: s3)%N acc
  = match Json.hex4 h1 h2 h3 h4 with
    | None => Raise JSONDecodeError
    | Some u =>
        match s3 with
        | b :: e' :: g1 :: g2 :: g3 :: g4 :: s4 =>
            if Json.is_high_surrogate u && N.eqb b BACKSLASH && N.eqb e' 117 then
              match Json.hex4 g1 g2 g3 g4 with
              | None => Raise JSONDecodeError
              | Some u2 =>
                  if Json.is_low_surrogate u2
                  then Json.scanstring s4 (acc ++ [Json.join_surrogates u u2])
                  else Json.scanstring s3 (acc ++ [u])
              end
            else Json.scanstring s3 (acc ++ [u])
        | _ => Json.scanstring s3 (acc ++ [u])
        end
    end.
Proof. reflexivity. Qed.

Lemma escape_u_cons (c : N) (tail : str) :
  Json.escape_u c ++ tail
  = (92 :: 117 :: Json.hex_digit (c / 4096 mod 16) :: Json.hex_digit (c / 256 mod 16)
        :: Json.hex_digit (c / 16 mod 16) :: Json.hex_digit (c mod 16) :: tail)%N.
Proof. reflexivity. Qed.

(** An escape of one code unit that is no high surrogate is read back as
    that unit. *)
Lemma scanstring_escape_u (u : N) (tail acc : str) :
  (u < 65536)%N -> Json.is_high_surrogate u = false ->
  Json.scanstring (Json.escape_u u ++ tail) acc = Json.scanstring tail (acc ++ [u]).
Proof.
  intros Hu Hh. rewrite escape_u_cons, scanstring_u, hex4_escape by assumption.
  rewrite Hh. cbn [andb].
  destruct tail as [|b [|e' [|g1 [|g2 [|g3 [|g4 s4]]]]]]; reflexivity.
Qed.

(** A surrogate pair is read back as the character it stands for. *)
Lemma scanstring_pair (v : N) (tail acc : str) :
  (v < 1048576)%N ->
  Json.scanstring (Json.escape_u (55296 + v / 1024 mod 1024)
                   ++ Json.escape_u (56320 + v mod 1024) ++ tail) acc
  = Json.scanstring tail (acc ++ [(65536 + v)%N]).
Proof.
  intros Hv.
  assert (Hhi : (55296 + v / 1024 mod 1024 < 65536)%N)
    by (zify; Z.to_euclidean_division_equations; lia).
  assert (Hlo : (56320 + v mod 1024 < 65536)%N)
    by (zify; Z.to_euclidean_division_equations; lia).
  rewrite (escape_u_cons (55296 + v / 1024 mod 1024)), scanstring_u, hex4_escape by assumption.
  rewrite escape_u_cons.
  replace (Json.is_high_surrogate (55296 + v / 1024 mod 1024)) with true.
  2:{ symmetry. apply andb_true_iff. split; apply N.leb_le;
      zify; Z.to_euclidean_division_equations; lia. }
  change (true && N.eqb 92 BACKSLASH && N.eqb 117 117)%N with true. cbv iota.
  rewrite hex4_escape by assumption.
  replace (Json.is_low_surrogate (56320 + v mod 1024)) with true.
  2:{ symmetry. apply andb_true_iff. split; apply N.leb_le;
      zify; Z.to_euclidean_division_equations; lia. }
  do 3 f_equal. unfold Json.join_surrogates.
  zify. Z.to_euclidean_division_equations. lia.
Qed.

Lemma scalar_no_surrogate (c : char) :
  is_scalar c = true -> Json.is_high_surrogate c = false.
Proof.
  unfold is_scalar, Json.is_high_surrogate. intros H.
  apply andb_true_iff in H as [_ H]. apply negb_true_iff in H.
  apply andb_false_iff in H. apply andb_false_iff.
  destruct H as [H|H]; [now left|right].
  apply N.leb_gt in H. apply N.leb_gt. lia.
Qed.

(** One character of a text, escaped, is read back as itself. *)
Lemma scanstring_escape_char (c : char) (tail acc : str) :
  is_scalar c = true ->
  Json.scanstring (Json.escape_char c ++ tail) acc = Json.scanstring tail (acc ++ [c]).
Proof.
  intros Hc. unfold Json.escape_char.
  destruct (N.eqb_spec c DQUOTE) as [->|H1]; [reflexivity|].
  destruct (N.eqb_spec c BACKSLASH) as [->|H2]; [reflexivity|].
  destruct (N.eqb_spec c LF) as [->|H3]; [reflexivity|].
  destruct (N.eqb_spec c CR) as [->|H4]; [reflexivity|].
  destruct (N.eqb_spec c TAB) as [->|H5]; [reflexivity|].
  destruct (N.eqb_spec c 8) as [->|H6]; [reflexivity|].
  destruct (N.eqb_spec c 12) as [->|H7]; [reflexivity|].
  destruct ((32 <=? c) && (c <=? 126))%N eqn:Hp.
  - apply andb_true_iff in Hp as [Hp _]. apply N.leb_le in Hp.
    cbn [app Json.scanstring].
    destruct (N.eqb_spec c DQUOTE); [contradiction|].
    destruct (N.eqb_spec c BACKSLASH); [contradiction|].
    destruct (N.leb_spec c 31); [lia|reflexivity].
  - destruct (N.ltb_spec c 65536) as [Hlt|Hge].
    + apply scanstring_escape_u; [assumption|now apply scalar_no_surrogate].
    + cbv zeta. rewrite <- app_assoc.
      rewrite scanstring_pair.
      * do 3 f_equal. lia.
      * apply andb_true_iff in Hc as [Hc _]. apply N.leb_le in Hc. lia.
Qed.

(** The body of a string literal and its closing quote are read back as
    the text. *)
Lemma scanstring_encode (s : str) :
  is_text s = true ->
  forall rest acc,
    Json.scanstring (List.flat_map Json.escape_char s ++ DQUOTE :: rest) acc
    = Ok (acc ++ s, rest).
Proof.
  induction s as [|c s IH]; intros Hs rest acc.
  - cbn. now rewrite app_nil_r.
  - cbn [is_text forallb] in Hs. apply andb_true_iff in Hs as [Hc Hs].
    cbn [flat_map]. rewrite <- app_assoc, scanstring_escape_char by assumption.
    rewrite (IH Hs). now rewrite <- app_assoc.
Qed.

(** *** Integers *)

Lemma isdigit_uint (d : Decimal.uint) :
  Forall (fun c => Json.isdigit c = true) (lit (NilEmpty.string_of_uint d)).
Proof. induction d; cbn; constructor; auto. Qed.

Lemma int_of_digits_uint (d : Decimal.uint) (acc : Z) :
  List.fold_left (fun a c => 10 * a + (Z.of_N c - 48)) (lit (NilEmpty.string_of_uint d)) acc
  = uint_value d acc.
Proof. revert acc. induction d; intros acc; cbn; try reflexivity; apply IHd. Qed.

Lemma uint_value_pos (d : Decimal.uint) (acc : positive) :
  uint_value d (Z.pos acc) = Z.pos (Pos.of_uint_acc d acc).
Proof.
  revert acc. induction d; intros acc; cbn [uint_value Pos.of_uint_acc];
    try reflexivity;
    match goal with
    | |- uint_value _ ?z = Z.pos (Pos.of_uint_acc _ ?p) =>
        replace z with (Z.pos p) by lia; apply IHd
    end.
Qed.

Lemma uint_value_N (d : Decimal.uint) : uint_value d 0 = Z.of_N (Pos.of_uint d).
Proof.
  induction d; cbn [uint_value Pos.of_uint]; try reflexivity;
    try (change (10 * 0 + 0) with 0; exact IHd);
    match goal with
    | |- uint_value _ ?z = _ =>
        let p := eval cbv in (Z.to_pos z) in
        change z with (Z.pos p); rewrite uint_value_pos; reflexivity
    end.
Qed.

(** The digits of a positive number: they are its decimal notation
    without a leading zero. *)
Lemma pos_digits (p : positive) :
  exists c ds,
    lit (NilEmpty.string_of_uint (Pos.to_uint p)) = c :: ds
    /\ Json.isdigit c = true /\ c <> 48%N
    /\ Forall (fun c => Json.isdigit c = true) ds
    /\ Json.int_of_digits (c :: ds) = Z.pos p.
Proof.
  assert (Hv : Json.int_of_digits (lit (NilEmpty.string_of_uint (Pos.to_uint p))) = Z.pos p).
  { unfold Json.int_of_digits. rewrite int_of_digits_uint, uint_value_N.
    now rewrite DecimalPos.Unsigned.of_to. }
  pose proof (isdigit_uint (Pos.to_uint p)) as Hd.
  pose proof (DecimalPos.Unsigned.to_of (Pos.to_uint p)) as Hn.
  rewrite DecimalPos.Unsigned.of_to in Hn. cbn [N.to_uint] in Hn.
  pose proof (DecimalPos.Unsigned.to_uint_nonnil p) as Hnil.
  destruct (Pos.to_uint p) as [|d|d|d|d|d|d|d|d|d|d] eqn:E; [contradiction|..];
    try (cbn in Hd |- *; inversion Hd; subst;
         eexists _, _; repeat split; try reflexivity; try assumption; try discriminate; exact Hv).
  exfalso. unfold Decimal.unorm in Hn. cbn [Decimal.nzhead] in Hn.
  destruct (Decimal.nzhead d) eqn:En; try discriminate.
  - injection Hn as ->. apply (DecimalPos.Unsigned.to_uint_nonzero p). exact E.
  - exact (DecimalFacts.nzhead_nonzero d u En).
Qed.

Lemma isdigit_cases (c : char) :
  Json.isdigit c = true -> In c [48; 49; 50; 51; 52; 53; 54; 55; 56; 57]%N.
Proof.
  unfold Json.isdigit. intros H. apply andb_true_iff in H as [H1 H2].
  apply N.leb_le in H1, H2.
  assert (c = 48 \/ c = 49 \/ c = 50 \/ c = 51 \/ c = 52 \/ c = 53 \/ c = 54
          \/ c = 55 \/ c = 56 \/ c = 57)%N as H by lia.
  cbn [In]. intuition.
Qed.

(** The text of an integer: a minus sign when it is negative, then the
    digits of its absolute value, without a leading zero. *)
Lemma str_of_int_shape (n : Z) :
  exists c ds,
    Json.isdigit c = true /\ Forall (fun c => Json.isdigit c = true) ds
    /\ (c = 48%N -> ds = [])
    /\ Json.int_of_digits (c :: ds) = Z.abs n
    /\ str_of_int n = (if n <? 0 then [45%N] else []) ++ c :: ds.
Proof.
  destruct n as [|p|p].
  - exists 48%N, []. repeat split; constructor.
  - destruct (pos_digits p) as (c & ds & E & Hc & Hz & Hds & Hv).
    exists c, ds. repeat split; try assumption; [contradiction|].
    rewrite <- E. unfold str_of_int. cbn [Z.to_int NilZero.string_of_int Z.ltb Z.compare app].
    unfold NilZero.string_of_uint.
    pose proof (DecimalPos.Unsigned.to_uint_nonnil p).
    destruct (Pos.to_uint p); [contradiction|reflexivity..].
  - destruct (pos_digits p) as (c & ds & E & Hc & Hz & Hds & Hv).
    exists c, ds. repeat split; try assumption; [contradiction|].
    rewrite <- E. unfold str_of_int. cbn [Z.to_int NilZero.string_of_int Z.ltb Z.compare].
    unfold NilZero.string_of_uint.
    pose proof (DecimalPos.Unsigned.to_uint_nonnil p).
    destruct (Pos.to_uint p); [contradiction|reflexivity..].
Qed.

Lemma span_digits_app (ds rest : str) :
  Forall (fun c => Json.isdigit c = true) ds -> delimited rest = true ->
  Json.span_digits (ds ++ rest) = (ds, rest).
Proof.
  intros Hds Hr. induction Hds as [|c ds Hc _ IH].
  - destruct rest as [|c r]; [reflexivity|]. cbn [app Json.span_digits].
    cbn [delimited] in Hr. apply negb_true_iff in Hr.
    apply orb_false_iff in Hr as [Hr _]. apply orb_false_iff in Hr as [Hr _].
    apply orb_false_iff in Hr as [Hr _]. now rewrite Hr.
  - cbn [app Json.span_digits]. now rewrite Hc, IH.
Qed.

Lemma match_fraction_delimited (rest : str) :
  delimited rest = true -> Json.match_fraction rest = None.
Proof.
  destruct rest as [|p [|d r]]; try reflexivity. intros Hr.
  cbn [delimited] in Hr. apply negb_true_iff in Hr.
  apply orb_false_iff in Hr as [Hr _]. apply orb_false_iff in Hr as [Hr _].
  apply orb_false_iff in Hr as [_ Hr].
  unfold Json.match_fraction. now rewrite Hr.
Qed.

Lemma match_exponent_delimited (rest : str) :
  delimited rest = true -> Json.match_exponent rest = None.
Proof.
  destruct rest as [|e r]; try reflexivity. intros Hr.
  cbn [delimited] in Hr. apply negb_true_iff in Hr.
  apply orb_false_iff in Hr as [Hr H69]. apply orb_false_iff in Hr as [Hr H101].
  unfold Json.match_exponent. now rewrite H101, H69.
Qed.

Lemma match_integer_digits (c : char) (ds rest : str) :
  Json.isdigit c = true -> Forall (fun c => Json.isdigit c = true) ds ->
  (c = 48%N -> ds = []) -> delimited rest = true ->
  Json.match_integer (c :: ds ++ rest) = Some (c :: ds, rest).
Proof.
  intros Hc Hds Hz Hr. unfold Json.match_integer.
  destruct (N.eqb_spec c 48) as [E|E].
  - now rewrite (Hz E).
  - now rewrite Hc, span_digits_app.
Qed.

(** The text of an integer, followed by no further number character, is
    read back as that integer. *)
Lemma match_number_int (n : Z) (rest : str) :
  delimited rest = true ->
  Json.match_number (str_of_int n ++ rest) = Some (VInt n, rest).
Proof.
  intros Hr. destruct (str_of_int_shape n) as (c & ds & Hc & Hds & Hz & Hv & E).
  rewrite E. unfold Json.match_number.
  assert (Hm : N.eqb c 45 = false).
  { apply isdigit_cases in Hc. cbn [In] in Hc.
    repeat (destruct Hc as [<-|Hc]; [reflexivity|]). contradiction. }
  destruct (Z.ltb_spec n 0) as [Hn|Hn].
  - cbn [app]. change (N.eqb 45 45) with true. cbv iota.
    rewrite match_integer_digits by assumption.
    rewrite match_fraction_delimited, match_exponent_delimited by assumption.
    rewrite Hv. replace (- Z.abs n) with n by lia. reflexivity.
  - cbn [app]. rewrite Hm.
    rewrite match_integer_digits by assumption.
    rewrite match_fraction_delimited, match_exponent_delimited by assumption.
    rewrite Hv. replace (Z.abs n) with n by lia. reflexivity.
Qed.

(** A text that starts like a number is given to the number lexer. *)
Lemma scan_once_number (budget : nat) (s : str) :
  (exists c t, s = c :: t /\ Json.isdigit c = true)
  \/ (exists c t, s = 45%N :: c :: t /\ Json.isdigit c = true) ->
  Json.scan_once (S budget) s
  = match Json.match_number s with
    | Some r => Some (Ok r)
    | None => Some (Raise JSONDecodeError)
    end.
Proof.
  intros [(c & t & -> & Hc)|(c & t & -> & Hc)];
    apply isdigit_cases in Hc; cbn [In] in Hc;
    repeat (destruct Hc as [<-|Hc]; [reflexivity|]); contradiction.
Qed.

Lemma scan_once_int (budget : nat) (n : Z) (rest : str) :
  delimited rest = true ->
  Json.scan_once (S budget) (str_of_int n ++ rest) = Some (Ok (VInt n, rest)).
Proof.
  intros Hr. rewrite scan_once_number.
  - now rewrite match_number_int.
  - destruct (str_of_int_shape n) as (c & ds & Hc & Hds & Hz & Hv & E).
    rewrite E. destruct (n <? 0); [right|left]; now exists c, (ds ++ rest).
Qed.

(** *** Arrays and objects *)

Lemma skip_ws_blank (ws s : str) :
  blank ws = true -> Json.skip_ws (ws ++ s) = Json.skip_ws s.
Proof.
  induction ws as [|c ws IH]; [reflexivity|]. cbn [blank forallb]. intros H.
  apply andb_true_iff in H as [Hc Hws]. cbn [app Json.skip_ws]. rewrite Hc. now apply IH.
Qed.

Lemma skip_ws_head (c : char) (t : str) :
  Json.is_ws c = false -> Json.skip_ws (c :: t) = c :: t.
Proof. intros H. cbn [Json.skip_ws]. now rewrite H. Qed.

Lemma parse_array_loop_item (f : str -> Json.scan (value * str)) (n : nat)
    (s rest : str) (acc : list value) (v : value) :
  f s = Some (Ok (v, rest)) ->
  Json.parse_array_loop f (S n) s acc
  = match Json.skip_ws rest with
    | c :: rest' =>
        if N.eqb c 93 then Some (Ok (VList (acc ++ [v]), rest'))
        else if N.eqb c COMMA
             then Json.parse_array_loop f n (Json.skip_ws rest') (acc ++ [v])
             else Some (Raise JSONDecodeError)
    | [] => Some (Raise JSONDecodeError)
    end.
Proof. intros H. cbn [Json.parse_array_loop]. now rewrite H. Qed.

Lemma parse_object_loop_item (f : str -> Json.scan (value * str)) (n : nat)
    (s1 t s4 key : str) (acc : list (str * value)) (v : value) :
  Json.scanstring s1 [] = Ok (key, 58%N :: t) ->
  f (Json.skip_ws t) = Some (Ok (v, s4)) ->
  Json.parse_object_loop f (S n) (DQUOTE :: s1) acc
  = match Json.skip_ws s4 with
    | d :: s5 =>
        if N.eqb d 125 then Some (Ok (VDict (setitem acc key v), s5))
        else if N.eqb d COMMA
             then Json.parse_object_loop f n (Json.skip_ws s5) (setitem acc key v)
             else Some (Raise JSONDecodeError)
    | [] => Some (Raise JSONDecodeError)
    end.
Proof.
  intros H1 H2. cbn [Json.parse_object_loop].
  change (N.eqb DQUOTE DQUOTE) with true. cbv iota. rewrite H1.
  change (Json.skip_ws (58%N :: t)) with (58%N :: t). cbv iota.
  change (N.eqb 58 58) with true. cbv iota. now rewrite H2.
Qed.

Lemma distinct_fresh (front back : list str) (k : str) :
  distinct (front ++ k :: back) = true -> ~ In k front.
Proof.
  induction front as [|a front IH]; [now intros _ []|].
  cbn [app distinct]. intros H [->|Hin].
  - apply andb_true_iff in H as [H _]. apply negb_true_iff in H.
    assert (existsb (str_eqb k) (front ++ k :: back) = true) as E; [|congruence].
    apply existsb_exists. exists k. split; [apply in_elt|apply str_eqb_refl].
  - apply andb_true_iff in H as [_ H]. now apply IH.
Qed.

Lemma setitem_fresh (acc : list (str * value)) (k : str) (v : value) :
  ~ In k (List.map fst acc) -> setitem acc k v = acc ++ [(k, v)].
Proof.
  induction acc as [|[k' v'] acc IH]; [reflexivity|]. cbn [map fst In setitem app].
  intros H. destruct (str_eqb k' k) eqn:E.
  - apply str_eqb_eq in E. tauto.
  - rewrite IH; tauto.
Qed.

Lemma join_cons (sep p : str) (parts : list str) (tail : str) :
  join sep (p :: parts) ++ tail
  = p ++ match parts with
         | [] => tail
         | _ :: _ => sep ++ join sep parts ++ tail
         end.
Proof. destruct parts; cbn [join]; [reflexivity|]. now rewrite <- !app_assoc. Qed.

Section Separators.

Variables item_ws key_ws : str.
Hypothesis item_blank : blank item_ws = true.
Hypothesis key_blank : blank key_ws = true.

(** The text of a value starts with a character that is no whitespace,
    no closing bracket and no byte order mark. *)
Lemma dumps_head (v : value) :
  json_safe v = true ->
  exists c t, Json.dumps (COMMA :: item_ws) (58%N :: key_ws) v = c :: t
              /\ Json.is_ws c = false /\ c <> 93%N /\ c <> 65279%N.
Proof.
  destruct v as [|[|]|n|f|s|elems|items]; intros Hv; try discriminate;
    try (eexists _, _; split; [reflexivity|split; [reflexivity|split; discriminate]]).
  destruct (str_of_int_shape n) as (c & ds & Hc & _ & _ & _ & E).
  cbn [Json.dumps]. rewrite E. destruct (n <? 0).
  - eexists _, _; split; [reflexivity|split; [reflexivity|split; discriminate]].
  - exists c, ds. apply isdigit_cases in Hc. cbn [In] in Hc.
    repeat (destruct Hc as [<-|Hc];
            [split; [reflexivity|split; [reflexivity|split; discriminate]]|]).
    contradiction.
Qed.

Lemma skip_ws_dumps (v : value) (tail : str) :
  json_safe v = true ->
  Json.skip_ws (Json.dumps (COMMA :: item_ws) (58%N :: key_ws) v ++ tail)
  = Json.dumps (COMMA :: item_ws) (58%N :: key_ws) v ++ tail.
Proof.
  intros Hv. destruct (dumps_head v Hv) as (c & t & E & Hc & _). rewrite E.
  now apply skip_ws_head.
Qed.

Lemma array_loop_dumps (scan_budget : nat) (elems : list value) :
  Forall (reads_back (COMMA :: item_ws) (58%N :: key_ws)) elems ->
  forall (e : value) (acc : list value) (n : nat) (rest : str),
    reads_back (COMMA :: item_ws) (58%N :: key_ws) e ->
    List.forallb json_safe (e :: elems) = true ->
    let text := join (COMMA :: item_ws) (List.map (Json.dumps (COMMA :: item_ws) (58%N :: key_ws)) (e :: elems))
                ++ 93%N :: rest in
    (List.length text < n)%nat -> (List.length text < scan_budget)%nat ->
    Json.parse_array_loop (Json.scan_once scan_budget) n text acc
    = Some (Ok (VList (acc ++ e :: elems), rest)).
Proof.
  induction 1 as [|e2 elems He2 _ IH]; intros e acc n rest He Hs text Hn Hb; subst text;
    cbn [forallb] in Hs; apply andb_true_iff in Hs as [Hse Hs];
    (destruct n as [|n]; [inversion Hn|]); cbn [map] in *; rewrite join_cons in *.
  - rewrite (parse_array_loop_item _ _ _ (93%N :: rest) _ e).
    + reflexivity.
    + apply (He Hse); [reflexivity|exact Hb].
  - set (tail := join (COMMA :: item_ws) (Json.dumps (COMMA :: item_ws) (58%N :: key_ws) e2
                                  :: map (Json.dumps (COMMA :: item_ws) (58%N :: key_ws)) elems)
                 ++ 93%N :: rest) in *.
    rewrite (parse_array_loop_item _ _ _ ((COMMA :: item_ws) ++ tail) _ e).
    + change ((COMMA :: item_ws) ++ tail) with (COMMA :: item_ws ++ tail).
      change (Json.skip_ws (COMMA :: item_ws ++ tail)) with (COMMA :: item_ws ++ tail).
      cbv iota. change (N.eqb COMMA 93) with false. change (N.eqb COMMA COMMA) with true.
      cbv iota. rewrite skip_ws_blank by exact item_blank.
      assert (Json.skip_ws tail = tail) as ->.
      { subst tail. rewrite join_cons. apply skip_ws_dumps.
        cbn [forallb] in Hs. now apply andb_true_iff in Hs as [Hs _]. }
      subst tail. rewrite (IH e2 (acc ++ [e]) n rest He2 Hs).
      * now rewrite <- app_assoc.
      * cbn [map]. rewrite ?length_app in *. cbn [List.length] in *. lia.
      * cbn [map]. rewrite ?length_app in *. cbn [List.length] in *. lia.
    + apply (He Hse); [reflexivity|exact Hb].
Qed.

Lemma item_text (k : str) (v : value) (tail : str) :
  (Json.encode_string k ++ (58%N :: key_ws) ++ Json.dumps (COMMA :: item_ws) (58%N :: key_ws) v) ++ tail
  = DQUOTE :: (List.flat_map Json.escape_char k
               ++ DQUOTE :: 58%N :: key_ws ++ Json.dumps (COMMA :: item_ws) (58%N :: key_ws) v ++ tail).
Proof.
  unfold Json.encode_string. rewrite <- !app_assoc. reflexivity.
Qed.

Lemma object_loop_dumps (scan_budget : nat) (items : list (str * value)) :
  Forall (fun kv => reads_back (COMMA :: item_ws) (58%N :: key_ws) (snd kv)) items ->
  forall (kv : str * value) (acc : list (str * value)) (n : nat) (rest : str),
    reads_back (COMMA :: item_ws) (58%N :: key_ws) (snd kv) ->
    List.forallb (fun kv => is_text (fst kv) && json_safe (snd kv)) (kv :: items) = true ->
    distinct (List.map fst (acc ++ kv :: items)) = true ->
    let text :=
      join (COMMA :: item_ws)
        (List.map (fun kv => Json.encode_string (fst kv) ++ (58%N :: key_ws)
                             ++ Json.dumps (COMMA :: item_ws) (58%N :: key_ws) (snd kv)) (kv :: items))
      ++ 125%N :: rest in
    (List.length text < n)%nat -> (List.length text < scan_budget)%nat ->
    Json.parse_object_loop (Json.scan_once scan_budget) n text acc
    = Some (Ok (VDict (acc ++ kv :: items), rest)).
Proof.
  induction 1 as [|kv2 items He2 _ IH]; intros [k v] acc n rest He Hs Hd text Hn Hb;
    subst text; cbn [forallb fst snd] in Hs, He; apply andb_true_iff in Hs as [Hse Hs];
    apply andb_true_iff in Hse as [Hk Hv];
    (destruct n as [|n]; [inversion Hn|]); cbn [map fst snd] in *;
    rewrite join_cons in *; rewrite item_text in *;
    assert (Hfresh : setitem acc k v = acc ++ [(k, v)])
      by (apply setitem_fresh; rewrite map_app in Hd; exact (distinct_fresh _ _ _ Hd)).
  - rewrite (parse_object_loop_item _ _ _ (key_ws ++ Json.dumps (COMMA :: item_ws) (58%N :: key_ws) v
                                            ++ 125%N :: rest) (125%N :: rest) k _ v).
    + now rewrite Hfresh.
    + now rewrite scanstring_encode.
    + rewrite skip_ws_blank, skip_ws_dumps by assumption.
      apply (He Hv); [reflexivity|].
      cbn [List.length] in *.
      repeat (rewrite ?length_app in *; cbn [List.length] in * ). lia.
  - set (tail := join (COMMA :: item_ws)
                   ((Json.encode_string (fst kv2) ++ (58%N :: key_ws)
                     ++ Json.dumps (COMMA :: item_ws) (58%N :: key_ws) (snd kv2))
                    :: map (fun kv => Json.encode_string (fst kv) ++ (58%N :: key_ws)
                                      ++ Json.dumps (COMMA :: item_ws) (58%N :: key_ws) (snd kv)) items)
                 ++ 125%N :: rest) in *.
    rewrite (parse_object_loop_item _ _ _ (key_ws ++ Json.dumps (COMMA :: item_ws) (58%N :: key_ws) v
                                            ++ (COMMA :: item_ws) ++ tail) ((COMMA :: item_ws) ++ tail) k _ v).
    + change ((COMMA :: item_ws) ++ tail) with (COMMA :: item_ws ++ tail).
      change (Json.skip_ws (COMMA :: item_ws ++ tail)) with (COMMA :: item_ws ++ tail).
      cbv iota. change (N.eqb COMMA 125) with false. change (N.eqb COMMA COMMA) with true.
      cbv iota. rewrite skip_ws_blank by exact item_blank.
      assert (Json.skip_ws tail = tail) as ->.
      { subst tail. rewrite join_cons, item_text. reflexivity. }
      rewrite Hfresh. subst tail. destruct kv2 as [k2 v2].
      rewrite (IH (k2, v2) (acc ++ [(k, v)]) n rest He2 Hs).
      * now rewrite <- app_assoc.
      * now rewrite <- app_assoc.
      * clear IH. cbn [map fst snd List.length] in *.
        repeat (rewrite ?length_app in *; cbn [List.length] in * ). lia.
      * clear IH. cbn [map fst snd List.length] in *.
        repeat (rewrite ?length_app in *; cbn [List.length] in * ). lia.
    + now rewrite scanstring_encode.
    + rewrite skip_ws_blank, skip_ws_dumps by assumption.
      apply (He Hv); [reflexivity|].
      cbn [List.length] in *.
      repeat (rewrite ?length_app in *; cbn [List.length] in * ). lia.
Qed.

(** The scanner reads the text of a value back as the value. *)
Lemma scan_once_dumps (v : value) : reads_back (COMMA :: item_ws) (58%N :: key_ws) v.
Proof.
  induction v as [| b | n | f | s | elems IH | items IH] using value_ind;
    intros Hv budget rest Hr Hb; (destruct budget as [|budget]; [inversion Hb|]).
  - reflexivity.
  - destruct b; reflexivity.
  - now apply scan_once_int.
  - discriminate.
  - cbn [Json.dumps json_safe] in *. unfold Json.encode_string.
    rewrite <- !app_assoc. cbn [app Json.scan_once].
    change (N.eqb DQUOTE DQUOTE) with true. cbv iota.
    now rewrite scanstring_encode.
  - cbn [Json.dumps json_safe] in *. rewrite <- !app_assoc in *.
    change (lit "[" ++ ?x) with (91%N :: x) in *.
    change (lit "]" ++ ?x) with (93%N :: x) in *.
    change (Json.scan_once (S budget) (91%N :: ?x))
      with (Json.parse_array (Json.scan_once budget) budget x).
    cbn [List.length] in Hb. apply PeanoNat.lt_S_n in Hb.
    destruct elems as [|e elems]; [reflexivity|].
    inversion IH as [|? ? He Hes]; subst.
    assert (Json.skip_ws (join (COMMA :: item_ws) (map (Json.dumps (COMMA :: item_ws) (58%N :: key_ws)) (e :: elems))
                          ++ 93%N :: rest)
            = join (COMMA :: item_ws) (map (Json.dumps (COMMA :: item_ws) (58%N :: key_ws)) (e :: elems))
              ++ 93%N :: rest) as Hskip.
    { cbn [map]. rewrite join_cons. apply skip_ws_dumps.
      cbn [forallb] in Hv. now apply andb_true_iff in Hv as [Hv _]. }
    unfold Json.parse_array. rewrite Hskip.
    assert (exists c t, join (COMMA :: item_ws) (map (Json.dumps (COMMA :: item_ws) (58%N :: key_ws)) (e :: elems))
                        ++ 93%N :: rest = c :: t /\ c <> 93%N) as (c & t & E & Hc).
    { cbn [map]. rewrite join_cons. cbn [forallb] in Hv.
      apply andb_true_iff in Hv as [Hv _].
      destruct (dumps_head e Hv) as (c & t & E & _ & Hc & _). rewrite E.
      now eexists _, _. }
    rewrite E. destruct (N.eqb_spec c 93) as [|_]; [contradiction|]. rewrite <- E.
    now apply (array_loop_dumps budget elems Hes e [] budget rest He Hv).
  - cbn [Json.dumps json_safe] in *. rewrite <- !app_assoc in *.
    change (lit "{" ++ ?x) with (123%N :: x) in *.
    change (lit "}" ++ ?x) with (125%N :: x) in *.
    change (Json.scan_once (S budget) (123%N :: ?x))
      with (Json.parse_object (Json.scan_once budget) budget x).
    cbn [List.length] in Hb. apply PeanoNat.lt_S_n in Hb.
    destruct items as [|[k x] items]; [reflexivity|].
    inversion IH as [|? ? He Hes]; subst.
    apply andb_true_iff in Hv as [Hd Hv].
    unfold Json.parse_object.
    match goal with
    | |- context [Json.skip_ws ?u] =>
        assert (exists t, u = DQUOTE :: t) as (t & E)
          by (cbn [map]; rewrite join_cons, item_text; now eexists)
    end.
    rewrite E.
    change (Json.skip_ws (DQUOTE :: t)) with (DQUOTE :: t). cbv iota.
    change (N.eqb DQUOTE 125) with false. cbv iota. rewrite <- E.
    now apply (object_loop_dumps budget items Hes (k, x) [] budget rest He Hv).
Qed.

(** [json.loads] undoes [json.dumps]. *)
Lemma loads_dumps (v : value) :
  json_safe v = true -> Json.loads (Json.dumps (COMMA :: item_ws) (58%N :: key_ws) v) = Ok v.
Proof.
  intros Hv. unfold Json.loads, Json.decode.
  destruct (dumps_head v Hv) as (c & t & E & Hws & _ & Hbom).
  assert (startswith [65279%N] (Json.dumps (COMMA :: item_ws) (58%N :: key_ws) v) = false) as ->.
  { rewrite E. cbn [startswith]. destruct (N.eqb_spec 65279 c); [congruence|reflexivity]. }
  replace (Json.skip_ws (Json.dumps (COMMA :: item_ws) (58%N :: key_ws) v))
    with (Json.dumps (COMMA :: item_ws) (58%N :: key_ws) v ++ []).
  - rewrite (scan_once_dumps v Hv); [reflexivity|reflexivity|].
    rewrite app_nil_r. apply Nat.lt_succ_diag_r.
  - rewrite app_nil_r, E. symmetry. now apply skip_ws_head.
Qed.

End Separators.

(** ** The two forms of the argument of [convert_json_to_toon] *)

(** The JSON text of a value and the value itself are converted alike:
    the text [json.dumps] writes for a value without floats, whatever
    the whitespace after its commas and colons, is parsed back to the
    value before it is encoded. *)
Theorem text_and_value_agree (item_ws key_ws : str) (v : value) :
  blank item_ws = true -> blank key_ws = true -> json_safe v = true ->
  convert_json_to_toon (VStr (Json.dumps (COMMA :: item_ws) (58%N :: key_ws) v))
  = json_to_toon v None 0.
Proof.
  intros Hi Hk Hv. rewrite convert_text, (loads_dumps item_ws key_ws Hi Hk v Hv).
  reflexivity.
Qed.

Lemma text_and_value_agree_witness :
  convert_json_to_toon (VStr (Json.dumps (lit ", ") (lit ": ") example_value))
  = json_to_toon example_value None 0.
Proof.
  exact (text_and_value_agree (lit " ") (lit " ") example_value eq_refl eq_refl eq_refl).
Defined.

(** ** The summary index: [doc_map.json] *)

Lemma doc_map_safe (ids : list str) (docs : list Document) :
  List.forallb is_text ids = true ->
  List.forallb (fun d => is_text (page_content d)) docs = true ->
  json_safe (doc_map ids docs) = true.
Proof.
  unfold doc_map. cbn [json_safe]. revert docs.
  induction ids as [|id ids IH]; intros [|doc docs] Hi Hd; try reflexivity.
  cbn [forallb] in Hi, Hd. apply andb_true_iff in Hi as [Hid Hi].
  apply andb_true_iff in Hd as [Hdoc Hd].
  cbn [combine map forallb json_safe fst snd]. rewrite Hid, Hdoc, (IH docs Hi Hd).
  reflexivity.
Qed.

(** What [create_summary_index] writes to [doc_map.json] is read back by
    [summary_index_app.py] as the very list of documents that was
    written, whatever characters the documents hold. *)
Theorem doc_map_reloads (ids : list str) (docs : list Document) :
  List.forallb is_text ids = true ->
  List.forallb (fun d => is_text (page_content d)) docs = true ->
  Json.loads (doc_map_file ids docs) = Ok (doc_map ids docs).
Proof.
  intros Hi Hd. unfold doc_map_file.
  exact (loads_dumps (lit " ") (lit " ") eq_refl eq_refl _ (doc_map_safe ids docs Hi Hd)).
Qed.

Lemma doc_map_reloads_witness :
  Json.loads (doc_map_file [lit "u0"; lit "u1"]
                [{| page_content := [233; 10; 34; 128512]%N; metadata := [] |};
                 {| page_content := lit "b"; metadata := [] |}])
  = Ok (doc_map [lit "u0"; lit "u1"]
          [{| page_content := [233; 10; 34; 128512]%N; metadata := [] |};
           {| page_content := lit "b"; metadata := [] |}]).
Proof.
  exact (doc_map_reloads [lit "u0"; lit "u1"]
           [{| page_content := [233; 10; 34; 128512]%N; metadata := [] |};
            {| page_content := lit "b"; metadata := [] |}] eq_refl eq_refl).
Defined.

(** ** The summary index: from a summary back to its document *)






Lemma distinct_NoDup (ks : list str) : distinct ks = true -> NoDup ks.
Proof.
  induction ks as [|k ks IH]; [constructor|]. cbn [distinct]. intros H.
  apply andb_true_iff in H as [H1 H2]. apply negb_true_iff in H1.
  constructor; [|now apply IH].
  intros Hin. assert (existsb (str_eqb k) ks = true) as E; [|congruence].
  apply existsb_exists. exists k. split; [assumption|apply str_eqb_refl].
Qed.








(** ** What the decoder hands to the encoder *)

Lemma NoDup_distinct (ks : list str) : NoDup ks -> distinct ks = true.
Proof.
  induction 1 as [|k ks Hnotin _ IH]; [reflexivity|]. cbn [distinct]. rewrite IH.
  destruct (existsb (str_eqb k) ks) eqn:E; [|reflexivity].
  apply existsb_exists in E as (x & Hin & Hx). apply str_eqb_eq in Hx. now subst x.
Qed.

Lemma setitem_keys_in (acc : list (str * value)) (k x : str) (v : value) :
  In x (List.map fst (setitem acc k v)) -> In x (List.map fst acc) \/ x = k.
Proof.
  induction acc as [|[k' v'] acc IH]; cbn [setitem List.map fst In].
  - intros [<-|[]]. now right.
  - destruct (str_eqb k' k); cbn [List.map fst In]; intros [H|H]; tauto.
Qed.

(** [d[k] = v] keeps the keys of [d] distinct. *)
Lemma setitem_NoDup (acc : list (str * value)) (k : str) (v : value) :
  NoDup (List.map fst acc) -> NoDup (List.map fst (setitem acc k v)).
Proof.
  induction acc as [|[k' v'] acc IH]; cbn [setitem List.map fst]; intros H.
  - constructor; [intros []|constructor].
  - apply NoDup_cons_iff in H as [Hnotin H].
    destruct (str_eqb k' k) eqn:E; cbn [List.map fst].
    + now constructor.
    + constructor; [|now apply IH].
      intros Hin. apply setitem_keys_in in Hin as [Hin| ->]; [contradiction|].
      now rewrite str_eqb_refl in E.
Qed.

Lemma setitem_well_formed (acc : list (str * value)) (k : str) (v : value) :
  well_formed (VDict acc) = true -> well_formed v = true ->
  well_formed (VDict (setitem acc k v)) = true.
Proof.
  cbn [well_formed]. intros H Hv. apply andb_true_iff in H as [Hd Hf].
  apply andb_true_iff. split.
  - apply NoDup_distinct, setitem_NoDup. now apply distinct_NoDup.
  - clear Hd. induction acc as [|[k' v'] acc IH]; cbn [setitem forallb snd] in *.
    + now rewrite Hv.
    + apply andb_true_iff in Hf as [H1 H2].
      destruct (str_eqb k' k); cbn [forallb snd]; [now rewrite Hv | now rewrite H1, IH].
Qed.

Lemma match_number_well_formed (s rest : str) (v : value) :
  Json.match_number s = Some (v, rest) -> well_formed v = true.
Proof.
  unfold Json.match_number.
  destruct (match s with [] => (false, s) | c :: r => if N.eqb c 45 then (true, r) else (false, s) end)
    as [neg s1].
  destruct (Json.match_integer s1) as [[ip s2]|]; [|discriminate].
  destruct (match Json.match_fraction s2 with Some (ds, r) => (Some ds, r) | None => (None, s2) end)
    as [frac s3].
  destruct (match Json.match_exponent s3 with Some (x, r) => (Some x, r) | None => (None, s3) end)
    as [ex s4].
  destruct frac, ex; now intros [= <- <-].
Qed.

Section WellFormedLoops.

Variable scan_once : str -> Json.scan (value * str).
Hypothesis scan_once_wf : forall s, scan_wf (scan_once s).

Lemma parse_array_loop_wf (budget : nat) :
  forall s acc, well_formed (VList acc) = true ->
  scan_wf (Json.parse_array_loop scan_once budget s acc).
Proof.
  induction budget as [|budget IH]; intros s acc Hacc; [exact I|].
  cbn [Json.parse_array_loop].
  pose proof (scan_once_wf s) as Hs.
  destruct (scan_once s) as [[[v rest]|e]|]; cbn [scan_wf] in Hs; try exact I.
  assert (Hnew : well_formed (VList (acc ++ [v])) = true).
  { cbn [well_formed] in *. rewrite forallb_app, Hacc. cbn [forallb]. now rewrite Hs. }
  destruct (Json.skip_ws rest) as [|c rest']; [exact I|].
  destruct (N.eqb c 93); [exact Hnew|].
  destruct (N.eqb c COMMA); [|exact I].
  now apply IH.
Qed.

Lemma parse_object_loop_wf (budget : nat) :
  forall s acc, well_formed (VDict acc) = true ->
  scan_wf (Json.parse_object_loop scan_once budget s acc).
Proof.
  induction budget as [|budget IH]; intros s acc Hacc; [exact I|].
  cbn [Json.parse_object_loop].
  destruct s as [|q s1]; [exact I|].
  destruct (N.eqb q DQUOTE); [|exact I].
  destruct (Json.scanstring s1 []) as [[key s2]|e]; [|exact I].
  destruct (Json.skip_ws s2) as [|c s3]; [exact I|].
  destruct (N.eqb c 58); [|exact I].
  pose proof (scan_once_wf (Json.skip_ws s3)) as Hs.
  destruct (scan_once (Json.skip_ws s3)) as [[[v s4]|e]|]; cbn [scan_wf] in Hs; try exact I.
  pose proof (setitem_well_formed acc key v Hacc Hs) as Hnew.
  destruct (Json.skip_ws s4) as [|d s5]; [exact I|].
  destruct (N.eqb d 125); [exact Hnew|].
  destruct (N.eqb d COMMA); [|exact I].
  now apply IH.
Qed.

End WellFormedLoops.

Lemma scan_once_wf (budget : nat) : forall s, scan_wf (Json.scan_once budget s).
Proof.
  induction budget as [|budget IH]; intros s; [exact I|].
  cbn [Json.scan_once].
  destruct s as [|c s']; [exact I|].
  destruct (N.eqb c DQUOTE).
  { destruct (Json.scanstring s' []) as [[x rest]|e]; [reflexivity | exact I]. }
  destruct (N.eqb c 123).
  { unfold Json.parse_object. destruct (Json.skip_ws s') as [|d rest]; [exact I|].
    destruct (N.eqb d 125); [reflexivity|]. now apply parse_object_loop_wf. }
  destruct (N.eqb c 91).
  { unfold Json.parse_array. destruct (Json.skip_ws s') as [|d rest]; [exact I|].
    destruct (N.eqb d 93); [reflexivity|]. now apply parse_array_loop_wf. }
  repeat match goal with
         | |- scan_wf (if startswith ?p ?t then _ else _) =>
             destruct (startswith p t); [reflexivity|]
         end.
  destruct (Json.match_number (c :: s')) as [[v rest]|] eqn:E; [|exact I].
  now apply match_number_well_formed in E.
Qed.

Lemma loads_well_formed (s : str) (v : value) :
  Json.loads s = Ok v -> well_formed v = true.
Proof.
  unfold Json.loads, Json.decode. destruct (startswith _ s); [discriminate|].
  pose proof (scan_once_wf (S (List.length s)) (Json.skip_ws s)) as H.
  destruct (Json.scan_once _ _) as [[[x rest]|e]|]; cbn [scan_wf] in H; try discriminate.
  destruct (Json.skip_ws rest); [|discriminate]. now intros [= <-].
Qed.

(** On the text path the encoder only ever sees well-formed values:
    when [convert_json_to_toon] returns for a text, it has encoded a value
    every object of which has pairwise distinct keys, whatever keys the
    text repeats. *)
Theorem text_path_is_well_formed (s out : str) :
  convert_json_to_toon (VStr s) = Ok out ->
  exists v, Json.loads s = Ok v /\ well_formed v = true /\ json_to_toon v None 0 = Ok out.
Proof.
  rewrite convert_text. destruct (Json.loads s) as [v|e] eqn:E; [|discriminate].
  cbn [bind]. intros H. exists v. split; [reflexivity|]. split; [|assumption].
  now apply loads_well_formed in E.
Qed.

Lemma text_path_is_well_formed_witness :
  exists v, Json.loads (json_text "{'a': 1, 'b': 2, 'a': 3}") = Ok v
            /\ well_formed v = true /\ json_to_toon v None 0 = Ok (lit "a: 3" ++ [LF] ++ lit "b: 2").
Proof.
  exact (text_path_is_well_formed (json_text "{'a': 1, 'b': 2, 'a': 3}")
           (lit "a: 3" ++ [LF] ++ lit "b: 2") eq_refl).
Defined.
